(** * FLASHCARDMAKER: the flashcard state engine of [src/index.tsx]

    A shallow embedding of the client-side logic of the flashcard page:
    the response parser, the search filter, the storage boundary, and
    the event handlers that edit, delete, reorder, select and undo.

    Strings.  A JavaScript string is a sequence of UTF-16 code units.
    This development covers the strings whose code units are all below
    256 (Latin-1); one [ascii] stands for one code unit.  On that range
    [String.prototype.trim], [toLowerCase], [split], [join] and
    [includes] are the functions written out below. *)

From Stdlib Require Import String Ascii List Bool Arith Lia ZArith.
From Stdlib Require Import Floats.
From stdpp Require Import base option list gmap strings.

Set Warnings "-register-all".

Local Open Scope list_scope.
Local Open Scope stdpp_scope.

(** ** JavaScript string primitives *)

Module JS.

(** [WhiteSpace] and [LineTerminator] code units below 256: TAB, LF, VT,
    FF, CR, SP and NBSP.  These are what [trim] strips. *)
Definition is_ws (c : ascii) : bool :=
  match c with
  | "009" | "010" | "011" | "012" | "013" | " " | "160" => true
  | _ => false
  end%char.

Fixpoint trimStart (s : string) : string :=
  match s with
  | EmptyString => EmptyString
  | String c r => if is_ws c then trimStart r else s
  end.

Fixpoint trimEnd (s : string) : string :=
  match s with
  | EmptyString => EmptyString
  | String c r =>
      match trimEnd r with
      | EmptyString => if is_ws c then EmptyString else String c EmptyString
      | r' => String c r'
      end
  end.

(** [s.trim()] *)
Definition trim (s : string) : string := trimEnd (trimStart s).

(** Truthiness of a string value: every string but the empty one. *)
Definition truthy (s : string) : bool :=
  match s with EmptyString => false | String _ _ => true end.

(** [s.toLowerCase()] on code units below 256: A-Z, and the Latin-1
    capitals U+00C0..U+00DE except the multiplication sign U+00D7. *)
Definition lower_char (c : ascii) : ascii :=
  let n := nat_of_ascii c in
  if ((65 <=? n) && (n <=? 90)) || ((192 <=? n) && (n <=? 214))
     || ((216 <=? n) && (n <=? 222))
  then ascii_of_nat (n + 32) else c.

Fixpoint toLowerCase (s : string) : string :=
  match s with
  | EmptyString => EmptyString
  | String c r => String (lower_char c) (toLowerCase r)
  end.

(** [s.split(sep)] for a one-character separator.  The result always
    has at least one piece: [''.split(':')] is [['']]. *)
Fixpoint split (sep : ascii) (s : string) : list string :=
  match s with
  | EmptyString => [EmptyString]
  | String c r =>
      if decide (c = sep) then EmptyString :: split sep r
      else match split sep r with
           | [] => [String c EmptyString]
           | p :: ps => String c p :: ps
           end
  end.

(** [parts.join(sep)] *)
Fixpoint join (sep : string) (parts : list string) : string :=
  match parts with
  | [] => EmptyString
  | [p] => p
  | p :: ps => p +:+ sep +:+ join sep ps
  end.

(** [s.startsWith(w)], the test [includes] makes at each position. *)
Fixpoint startsWith (s w : string) : bool :=
  match w, s with
  | EmptyString, _ => true
  | String _ _, EmptyString => false
  | String a w', String b s' => if decide (a = b) then startsWith s' w' else false
  end.

(** [s.includes(w)] *)
Fixpoint includes (s w : string) : bool :=
  startsWith s w ||
  match s with
  | EmptyString => false
  | String _ r => includes r w
  end.

(** [arr.filter(x => x !== null)] followed by the type narrowing. *)
Fixpoint filter_non_null {A} (l : list (option A)) : list A :=
  match l with
  | [] => []
  | None :: r => filter_non_null r
  | Some x :: r => x :: filter_non_null r
  end.

(** [arr.filter((_, i) => keep(i))], the index counted from [i]. *)
Fixpoint filter_index_from {A} (keep : nat -> bool) (i : nat) (l : list A) : list A :=
  match l with
  | [] => []
  | x :: r =>
      if keep i then x :: filter_index_from keep (S i) r
      else filter_index_from keep (S i) r
  end.

Definition filter_index {A} (keep : nat -> bool) (l : list A) : list A :=
  filter_index_from keep 0 l.

End JS.

(** ** Data model *)

(** [interface Flashcard] *)
Record Flashcard := mkFlashcard { term : string; definition : string }.

Global Instance Flashcard_eq_dec : EqDecision Flashcard.
Proof. solve_decision. Defined.

(** ** Response parser (the [generateButton] listener, lines 496-509) *)

(** The arrow function given to [.map]: one line to a card or [null]. *)
Definition parse_line (line : string) : option Flashcard :=
  let parts := JS.split ":"%char line in
  if (2 <=? length parts) && JS.truthy (JS.trim (default "" (parts !! 0))) then
    let term := JS.trim (default "" (parts !! 0)) in
    let definition := JS.trim (JS.join ":" (drop 1 parts)) in
    if JS.truthy definition then Some (mkFlashcard term definition) else None
  else None.

(** [responseText.split('\n').map(...).filter(card => card !== null)] *)
Definition parse_response (responseText : string) : list Flashcard :=
  JS.filter_non_null (map parse_line (JS.split "010"%char responseText)).

(** ** Search filter (the pure part of [applySearchFilter], lines 397-410) *)

(** [searchBar.value.trim().toLowerCase().split(' ').filter(word => word.length > 0)] *)
Definition search_words (value : string) : list string :=
  List.filter (fun word => 0 <? String.length word)
    (JS.split " "%char (JS.toLowerCase (JS.trim value))).

(** The text a card is matched against: the template literal with one
    space between term and definition, lower-cased. *)
Definition card_text (card : Flashcard) : string :=
  JS.toLowerCase (term card +:+ " " +:+ definition card).

(** The value [isVisible] has at the end of the loop body. *)
Definition card_visible (searchWords : list string) (card : Flashcard) : bool :=
  if 0 <? length searchWords
  then forallb (fun word => JS.includes (card_text card) word) searchWords
  else true.

(** ** JSON text, as [JSON.parse] reads it and [JSON.stringify] writes it *)

Module JSON.

(** A parsed JSON value.  A string is kept as its UTF-16 code units (an
    escape can denote any unit), a number as its lexeme, an object as its
    members in source order. *)
Inductive value :=
| Null
| Bool (b : bool)
| Number (lexeme : string)
| Str (units : list N)
| Array (elems : list value)
| Object (members : list (list N * value)).

Definition is_ws (c : ascii) : bool :=
  match c with
  | " " | "009" | "010" | "013" => true
  | _ => false
  end%char.

Definition is_digit (c : ascii) : bool :=
  let n := nat_of_ascii c in (48 <=? n) && (n <=? 57).

Definition hex_digit (c : ascii) : option N :=
  let n := N_of_ascii c in
  if (48 <=? n)%N && (n <=? 57)%N then Some (n - 48)%N
  else if (65 <=? n)%N && (n <=? 70)%N then Some (n - 55)%N
  else if (97 <=? n)%N && (n <=? 102)%N then Some (n - 87)%N
  else None.

(** The number grammar as an automaton: an optional minus; then a
    single zero, or a digit from 1 to 9 followed by any digits; then
    optionally a dot and at least one digit; then optionally e or E, an
    optional sign and at least one digit. *)
Inductive num_state :=
| NMinus | NZero | NInt | NDot | NFrac | NExp | NExpSign | NExpDigits.

Definition num_accepting (ns : num_state) : bool :=
  match ns with
  | NZero | NInt | NFrac | NExpDigits => true
  | NMinus | NDot | NExp | NExpSign => false
  end.

Definition is_exp (c : ascii) : bool :=
  match c with "e" | "E" => true | _ => false end%char.

Definition is_sign (c : ascii) : bool :=
  match c with "+" | "-" => true | _ => false end%char.

Definition is_dot (c : ascii) : bool :=
  match c with "." => true | _ => false end%char.

Definition num_step (ns : num_state) (c : ascii) : option num_state :=
  match ns with
  | NMinus =>
      if decide (c = "0"%char) then Some NZero
      else if is_digit c then Some NInt else None
  | NZero =>
      if is_dot c then Some NDot else if is_exp c then Some NExp else None
  | NInt =>
      if is_digit c then Some NInt
      else if is_dot c then Some NDot else if is_exp c then Some NExp else None
  | NDot => if is_digit c then Some NFrac else None
  | NFrac =>
      if is_digit c then Some NFrac else if is_exp c then Some NExp else None
  | NExp =>
      if is_sign c then Some NExpSign
      else if is_digit c then Some NExpDigits else None
  | NExpSign => if is_digit c then Some NExpDigits else None
  | NExpDigits => if is_digit c then Some NExpDigits else None
  end.

(** Where the reader is inside the text. *)
Inductive mode :=
| MValue                                   (* a value must start *)
| MArrayStart                              (* after [: a value or ] *)
| MObjectStart                             (* after {: a key or } *)
| MKey                                     (* after , in an object *)
| MColon                                   (* after a key *)
| MAfter                                   (* after a complete value *)
| MString (is_key : bool) (acc : list N)   (* inside a string, units reversed *)
| MEscape (is_key : bool) (acc : list N)   (* after a backslash *)
| MUnicode (is_key : bool) (acc : list N) (todo : nat) (code : N)
| MNumber (ns : num_state) (lexeme : string)
| MLiteral (rest : string) (v : value).    (* inside null, true or false *)

(** The enclosing containers, innermost first, contents reversed. *)
Inductive frame :=
| FArray (elems : list value)
| FObject (members : list (list N * value)) (pending : option (list N)).

Record pstate := mkP {
  stack : list frame;
  result : option value;
  pmode : mode }.

(** A value is complete: it goes to the innermost container, or is the
    result when there is none. *)
Definition complete (v : value) (stk : list frame) : option pstate :=
  match stk with
  | [] => Some (mkP [] (Some v) MAfter)
  | FArray es :: stk' => Some (mkP (FArray (v :: es) :: stk') None MAfter)
  | FObject ms (Some k) :: stk' =>
      Some (mkP (FObject ((k, v) :: ms) None :: stk') None MAfter)
  | FObject _ None :: _ => None
  end.

Definition after (c : ascii) (st : pstate) : option pstate :=
  if is_ws c then Some st
  else match stack st with
       | [] => None
       | FArray es :: stk' =>
           if decide (c = ","%char) then Some (mkP (stack st) None MValue)
           else if decide (c = "]"%char) then complete (Array (rev es)) stk'
           else None
       | FObject ms None :: stk' =>
           if decide (c = ","%char) then Some (mkP (stack st) None MKey)
           else if decide (c = "}"%char) then complete (Object (rev ms)) stk'
           else None
       | FObject _ (Some _) :: _ => None
       end.

Definition start_value (c : ascii) (stk : list frame) : option pstate :=
  match c with
  | "034" => Some (mkP stk None (MString false []))
  | "[" => Some (mkP (FArray [] :: stk) None MArrayStart)
  | "{" => Some (mkP (FObject [] None :: stk) None MObjectStart)
  | "n" => Some (mkP stk None (MLiteral "ull" Null))
  | "t" => Some (mkP stk None (MLiteral "rue" (Bool true)))
  | "f" => Some (mkP stk None (MLiteral "alse" (Bool false)))
  | "-" => Some (mkP stk None (MNumber NMinus "-"))
  | "0" => Some (mkP stk None (MNumber NZero "0"))
  | _ =>
      if is_digit c then Some (mkP stk None (MNumber NInt (String c EmptyString)))
      else None
  end%char.

Definition end_string (is_key : bool) (units : list N) (stk : list frame)
  : option pstate :=
  if is_key then
    match stk with
    | FObject ms None :: stk' => Some (mkP (FObject ms (Some units) :: stk') None MColon)
    | _ => None
    end
  else complete (Str units) stk.

Definition escape_unit (c : ascii) : option N :=
  match c with
  | "034" => Some 34%N
  | "\" => Some 92%N
  | "/" => Some 47%N
  | "b" => Some 8%N
  | "f" => Some 12%N
  | "n" => Some 10%N
  | "r" => Some 13%N
  | "t" => Some 9%N
  | _ => None
  end%char.

Definition step (st : pstate) (c : ascii) : option pstate :=
  let stk := stack st in
  match pmode st with
  | MValue => if is_ws c then Some st else start_value c stk
  | MArrayStart =>
      if is_ws c then Some st
      else if decide (c = "]"%char) then
        match stk with
        | FArray _ :: stk' => complete (Array []) stk'
        | _ => None
        end
      else start_value c stk
  | MObjectStart =>
      if is_ws c then Some st
      else if decide (c = "034"%char) then Some (mkP stk None (MString true []))
      else if decide (c = "}"%char) then
        match stk with
        | FObject _ _ :: stk' => complete (Object []) stk'
        | _ => None
        end
      else None
  | MKey =>
      if is_ws c then Some st
      else if decide (c = "034"%char) then Some (mkP stk None (MString true []))
      else None
  | MColon =>
      if is_ws c then Some st
      else if decide (c = ":"%char) then Some (mkP stk None MValue)
      else None
  | MAfter => after c st
  | MString k acc =>
      if decide (c = "034"%char) then end_string k (rev acc) stk
      else if decide (c = "\"%char) then Some (mkP stk None (MEscape k acc))
      else if nat_of_ascii c <? 32 then None
      else Some (mkP stk None (MString k (N_of_ascii c :: acc)))
  | MEscape k acc =>
      if decide (c = "u"%char) then Some (mkP stk None (MUnicode k acc 4 0%N))
      else match escape_unit c with
           | Some u => Some (mkP stk None (MString k (u :: acc)))
           | None => None
           end
  | MUnicode k acc todo code =>
      match hex_digit c with
      | Some d =>
          let code' := (code * 16 + d)%N in
          match todo with
          | 0 | 1 => Some (mkP stk None (MString k (code' :: acc)))
          | S todo' => Some (mkP stk None (MUnicode k acc todo' code'))
          end
      | None => None
      end
  | MNumber ns lexeme =>
      match num_step ns c with
      | Some ns' => Some (mkP stk None (MNumber ns' (lexeme +:+ String c EmptyString)))
      | None =>
          if num_accepting ns
          then match complete (Number lexeme) stk with
               | Some st' => after c st'
               | None => None
               end
          else None
      end
  | MLiteral rest v =>
      match rest with
      | String c' rest' =>
          if decide (c = c') then
            match rest' with
            | EmptyString => complete v stk
            | _ => Some (mkP stk None (MLiteral rest' v))
            end
          else None
      | EmptyString => None
      end
  end.

Fixpoint steps (st : pstate) (text : string) : option pstate :=
  match text with
  | EmptyString => Some st
  | String c r =>
      match step st c with
      | Some st' => steps st' r
      | None => None
      end
  end.

(** What the end of the text makes of the state. *)
Definition finish (st : pstate) : option value :=
  match stack st, pmode st with
  | [], MAfter => result st
  | [], MNumber ns lexeme => if num_accepting ns then Some (Number lexeme) else None
  | _, _ => None
  end.

(** [JSON.parse(text)]: [None] stands for the [SyntaxError] it throws. *)
Definition parse (text : string) : option value :=
  match steps (mkP [] None MValue) text with
  | Some st => finish st
  | None => None
  end.

(** *** [JSON.stringify] of a card list *)

Definition dquote : string := String "034"%char EmptyString.
Definition backslash : string := String "092"%char EmptyString.

Definition hex_char (n : nat) : ascii :=
  if n <? 10 then ascii_of_nat (48 + n) else ascii_of_nat (87 + n).

(** [QuoteJSONString] on one code unit below 256: the two-character
    escapes, a lower-case u-escape for the other controls, the unit
    itself otherwise. *)
Definition quote_unit (c : ascii) : string :=
  match c with
  | "034" => backslash +:+ dquote
  | "092" => backslash +:+ backslash
  | "008" => backslash +:+ "b"
  | "012" => backslash +:+ "f"
  | "010" => backslash +:+ "n"
  | "013" => backslash +:+ "r"
  | "009" => backslash +:+ "t"
  | _ =>
      let n := nat_of_ascii c in
      if (n <? 32)%nat
      then backslash +:+ "u00" +:+
           String (hex_char (n / 16)) (String (hex_char (n mod 16)) EmptyString)
      else String c EmptyString
  end%char.

Fixpoint quote_units (s : string) : string :=
  match s with
  | EmptyString => EmptyString
  | String c r => quote_unit c +:+ quote_units r
  end.

Definition quote (s : string) : string := dquote +:+ quote_units s +:+ dquote.

End JSON.

(** [JSON.stringify(flashcards)] for an array of [{term, definition}]
    objects, properties in creation order. *)
Definition stringify_card (card : Flashcard) : string :=
  "{" +:+ JSON.quote "term" +:+ ":" +:+ JSON.quote (term card) +:+ "," +:+
  JSON.quote "definition" +:+ ":" +:+ JSON.quote (definition card) +:+ "}".

Definition stringify (flashcards : list Flashcard) : string :=
  "[" +:+ JS.join "," (map stringify_card flashcards) +:+ "]".

(** ** The browser environment: [localStorage] and the console *)

Definition FLASHCARDS_LOCAL_STORAGE_KEY : string := "gemini-flashcards".

(** The mutating calls made on [localStorage], in order, whether or not
    they threw. *)
Inductive StorageCall :=
| SetItem (key val : string)
| RemoveItem (key : string).

Record Env := mkEnv {
  ls_items : gmap string string;     (* what localStorage holds *)
  ls_quota_exceeded : bool;          (* setItem throws while this is set *)
  ls_calls : list StorageCall;
  console_errors : list string }.

Definition console_error (msg : string) (e : Env) : Env :=
  mkEnv (ls_items e) (ls_quota_exceeded e) (ls_calls e) (console_errors e ++ [msg]).

(** [localStorage.setItem]; the boolean tells whether it returned
    ([true]) or threw ([false]). *)
Definition setItem (key val : string) (e : Env) : Env * bool :=
  let calls := ls_calls e ++ [SetItem key val] in
  if ls_quota_exceeded e
  then (mkEnv (ls_items e) true calls (console_errors e), false)
  else (mkEnv (<[key := val]> (ls_items e)) false calls (console_errors e), true).

Definition removeItem (key : string) (e : Env) : Env :=
  mkEnv (delete key (ls_items e)) (ls_quota_exceeded e)
        (ls_calls e ++ [RemoveItem key]) (console_errors e).

Definition getItem (key : string) (e : Env) : option string := ls_items e !! key.

(** [saveFlashcards] (lines 331-337) *)
Definition saveFlashcards (flashcards : list Flashcard) (e : Env) : Env :=
  match setItem FLASHCARDS_LOCAL_STORAGE_KEY (stringify flashcards) e with
  | (e', true) => e'
  | (e', false) => console_error "Could not save flashcards to local storage:" e'
  end.

(** [loadFlashcards] (lines 339-350).  The result is the JavaScript value
    returned, [JSON.Null] for [null]: the parsed value is returned as it
    is, the TypeScript return type being erased at run time. *)
Definition loadFlashcards (e : Env) : JSON.value * Env :=
  match getItem FLASHCARDS_LOCAL_STORAGE_KEY e with
  | Some saved =>
      if JS.truthy saved then
        match JSON.parse saved with
        | Some v => (v, e)
        | None =>
            (JSON.Null,
             removeItem FLASHCARDS_LOCAL_STORAGE_KEY
               (console_error "Could not load flashcards from local storage:" e))
        end
      else (JSON.Null, e)
  | None => (JSON.Null, e)
  end.

(** ** The page state *)

(** One rendered card (a [.flashcard] element of [flashcardsContainer])
    with what its listeners captured when [displayFlashcards] built it. *)
Record CardEl := mkCardEl {
  data_index : nat;                       (* cardDiv.dataset.index, and the closures' index *)
  flashcard : Flashcard;                  (* the forEach parameter the closures captured *)
  term_text : string;                     (* termDiv.textContent *)
  definition_text : string;               (* definitionDiv.textContent *)
  is_editing : bool;                      (* class is-editing *)
  originalCardState : option Flashcard;
  is_selected : bool;                     (* class is-selected *)
  checked : bool;                         (* checkbox.checked *)
  hidden : bool;                          (* class hidden *)
  dragging : bool;                        (* class dragging *)
  flipped : bool;                         (* class flipped *)
  draggable : bool }.                     (* cardDiv.draggable *)

Definition set_texts (t d : string) (el : CardEl) : CardEl :=
  mkCardEl (data_index el) (flashcard el) t d (is_editing el)
    (originalCardState el) (is_selected el) (checked el) (hidden el)
    (dragging el) (flipped el) (draggable el).

Definition set_editing (b : bool) (o : option Flashcard) (el : CardEl) : CardEl :=
  mkCardEl (data_index el) (flashcard el) (term_text el) (definition_text el) b
    o (is_selected el) (checked el) (hidden el)
    (dragging el) (flipped el) (draggable el).

Definition set_selected (b : bool) (el : CardEl) : CardEl :=
  mkCardEl (data_index el) (flashcard el) (term_text el) (definition_text el)
    (is_editing el) (originalCardState el) b b (hidden el)
    (dragging el) (flipped el) (draggable el).

Definition set_hidden (b : bool) (el : CardEl) : CardEl :=
  mkCardEl (data_index el) (flashcard el) (term_text el) (definition_text el)
    (is_editing el) (originalCardState el) (is_selected el) (checked el) b
    (dragging el) (flipped el) (draggable el).

Definition set_dragging (b : bool) (el : CardEl) : CardEl :=
  mkCardEl (data_index el) (flashcard el) (term_text el) (definition_text el)
    (is_editing el) (originalCardState el) (is_selected el) (checked el)
    (hidden el) b (flipped el) (draggable el).

Definition set_flipped (b : bool) (el : CardEl) : CardEl :=
  mkCardEl (data_index el) (flashcard el) (term_text el) (definition_text el)
    (is_editing el) (originalCardState el) (is_selected el) (checked el)
    (hidden el) (dragging el) b (draggable el).

(** The module-level variables, the parts of the document the handlers
    read back, and the environment. *)
Record State := mkState {
  currentFlashcards : list Flashcard;
  previousState : option (list Flashcard);
  isMultiSelectMode : bool;
  selectedCards : gset nat;
  container : list CardEl;                (* flashcardsContainer's cards, in document order *)
  searchValue : string;                   (* searchBar.value *)
  errorMessage : string;                  (* errorMessage.textContent *)
  generateDisabled : bool;                (* generateButton.disabled *)
  env : Env }.

Definition set_cards (l : list Flashcard) (st : State) : State :=
  mkState l (previousState st) (isMultiSelectMode st) (selectedCards st)
    (container st) (searchValue st) (errorMessage st) (generateDisabled st) (env st).

Definition set_previous (p : option (list Flashcard)) (st : State) : State :=
  mkState (currentFlashcards st) p (isMultiSelectMode st) (selectedCards st)
    (container st) (searchValue st) (errorMessage st) (generateDisabled st) (env st).

Definition set_mode (b : bool) (st : State) : State :=
  mkState (currentFlashcards st) (previousState st) b (selectedCards st)
    (container st) (searchValue st) (errorMessage st) (generateDisabled st) (env st).

Definition set_selection (s : gset nat) (st : State) : State :=
  mkState (currentFlashcards st) (previousState st) (isMultiSelectMode st) s
    (container st) (searchValue st) (errorMessage st) (generateDisabled st) (env st).

Definition set_container (c : list CardEl) (st : State) : State :=
  mkState (currentFlashcards st) (previousState st) (isMultiSelectMode st)
    (selectedCards st) c (searchValue st) (errorMessage st) (generateDisabled st) (env st).

Definition set_search (v : string) (st : State) : State :=
  mkState (currentFlashcards st) (previousState st) (isMultiSelectMode st)
    (selectedCards st) (container st) v (errorMessage st) (generateDisabled st) (env st).

Definition set_error (m : string) (st : State) : State :=
  mkState (currentFlashcards st) (previousState st) (isMultiSelectMode st)
    (selectedCards st) (container st) (searchValue st) m (generateDisabled st) (env st).

Definition set_disabled (b : bool) (st : State) : State :=
  mkState (currentFlashcards st) (previousState st) (isMultiSelectMode st)
    (selectedCards st) (container st) (searchValue st) (errorMessage st) b (env st).

Definition set_env (e : Env) (st : State) : State :=
  mkState (currentFlashcards st) (previousState st) (isMultiSelectMode st)
    (selectedCards st) (container st) (searchValue st) (errorMessage st)
    (generateDisabled st) e.

(** ** The functions of [index.tsx] on the state *)

(** [savePreviousState] (lines 75-78): [map(card => ({...card}))]. *)
Definition savePreviousState (st : State) : State :=
  set_previous
    (Some (map (fun card => mkFlashcard (term card) (definition card))
               (currentFlashcards st))) st.

(** The element [displayFlashcards] builds for [flashcard] at [index]. *)
Definition render_card (st : State) (index : nat) (card : Flashcard) : CardEl :=
  mkCardEl index card (term card) (definition card) false None
    (bool_decide (index ∈ selectedCards st))
    (bool_decide (index ∈ selectedCards st))
    false false false (negb (isMultiSelectMode st)).

(** [displayFlashcards] (lines 120-329): the container is rebuilt from
    nothing; the search bar is emptied when there is no card. *)
Definition displayFlashcards (flashcards : list Flashcard) (st : State) : State :=
  let st1 := set_cards flashcards st in
  let st2 := if decide (length flashcards = 0) then set_search "" st1 else st1 in
  set_container (imap (render_card st) flashcards) st2.

(** The [forEach] of [applySearchFilter]: the card at [index] sets the
    class of the element at position [index]; a missing element is
    skipped. *)
Fixpoint filter_loop (searchWords : list string) (index : nat)
    (cards : list Flashcard) (els : list CardEl) : list CardEl :=
  match cards with
  | [] => els
  | card :: rest =>
      let els' :=
        match els !! index with
        | None => els
        | Some _ => alter (set_hidden (negb (card_visible searchWords card))) index els
        end in
      filter_loop searchWords (S index) rest els'
  end.

(** [applySearchFilter] (lines 396-415) *)
Definition applySearchFilter (st : State) : State :=
  set_container
    (filter_loop (search_words (searchValue st)) 0
       (currentFlashcards st) (container st)) st.

(** [toggleCardSelection] (lines 98-113): the element is looked up by
    position [index]. *)
Definition toggleCardSelection (index : nat) (st : State) : State :=
  match container st !! index with
  | None => st
  | Some _ =>
      if bool_decide (index ∈ selectedCards st)
      then set_container (alter (set_selected false) index (container st))
             (set_selection (selectedCards st ∖ {[index]}) st)
      else set_container (alter (set_selected true) index (container st))
             (set_selection (selectedCards st ∪ {[index]}) st)
  end.

(** [flipCard] of the card at position [pos]. *)
Definition flipCard (pos : nat) (st : State) : State :=
  match container st !! pos with
  | None => st
  | Some el =>
      if is_editing el then st
      else set_container (alter (set_flipped (negb (flipped el))) pos (container st)) st
  end.

(** [exitEditMode] *)
Definition exitEditMode (pos : nat) (st : State) : State :=
  set_container (alter (set_editing false None) pos (container st)) st.

(** [saveAndEndEditing] (lines 201-215) of the card at position [pos].
    Reading [currentFlashcards[index].term] with [index] out of range
    throws before anything is changed. *)
Definition saveAndEndEditing (pos : nat) (st : State) : State :=
  match container st !! pos with
  | None => st
  | Some el =>
      if negb (is_editing el) then st
      else
        let newTerm := JS.trim (term_text el) in
        let newDef := JS.trim (definition_text el) in
        let index := data_index el in
        match currentFlashcards st !! index with
        | None => st
        | Some current =>
            let st1 :=
              if bool_decide (term current ≠ newTerm) || bool_decide (definition current ≠ newDef)
              then
                let s1 := savePreviousState st in
                let s2 := set_cards (<[index := mkFlashcard newTerm newDef]> (currentFlashcards s1)) s1 in
                set_env (saveFlashcards (currentFlashcards s2) (env s2)) s2
              else st in
            exitEditMode pos st1
        end
  end.

(** [cancelEditing] (lines 217-223) *)
Definition cancelEditing (pos : nat) (st : State) : State :=
  match container st !! pos with
  | None => st
  | Some el =>
      match originalCardState el with
      | Some o =>
          exitEditMode pos
            (set_container (alter (set_texts (term o) (definition o)) pos (container st)) st)
      | None => st
      end
  end.

(** The click listener of the edit button (lines 225-239). *)
Definition editButton_click (pos : nat) (st : State) : State :=
  match container st !! pos with
  | None => st
  | Some el =>
      if is_editing el then saveAndEndEditing pos st
      else
        let o := mkFlashcard (term (flashcard el)) (definition (flashcard el)) in
        set_container (alter (set_editing true (Some o)) pos (container st)) st
  end.

(** The click listener of the delete button (lines 274-282). *)
Definition deleteButton_click (pos : nat) (confirmed : bool) (st : State) : State :=
  match container st !! pos with
  | None => st
  | Some el =>
      if confirmed then
        let index := data_index el in
        let s1 := savePreviousState st in
        let updatedFlashcards :=
          JS.filter_index (fun i => bool_decide (i ≠ index)) (currentFlashcards s1) in
        let s2 := set_env (saveFlashcards updatedFlashcards (env s1)) s1 in
        displayFlashcards updatedFlashcards s2
      else st
  end.

(** [updateOrderAndSave] (lines 369-380).  [currentFlashcards[originalIndex]]
    is read for each element in document order; an index out of range
    would read [undefined], which no rendered element has (see
    [rendered_in_range] below), and is left out here. *)
Definition updateOrderAndSave (st : State) : State :=
  let s1 := savePreviousState st in
  let newFlashcards :=
    omap (fun el => currentFlashcards s1 !! data_index el) (container s1) in
  let s2 := displayFlashcards newFlashcards s1 in
  let s3 := applySearchFilter s2 in
  set_env (saveFlashcards newFlashcards (env s3)) s3.

(** The click listener of the undo button (lines 420-437). *)
Definition undoButton_click (st : State) : State :=
  match previousState st with
  | Some previous =>
      let s1 := displayFlashcards previous st in
      let s2 := set_env (saveFlashcards previous (env s1)) s1 in
      let s3 := applySearchFilter s2 in
      let s4 := set_previous None s3 in
      set_error "Last action undone." s4
  | None => st
  end.

(** The click listener of the select button (lines 439-449). *)
Definition selectButton_click (st : State) : State :=
  let s1 := set_mode (negb (isMultiSelectMode st)) st in
  let s2 := if isMultiSelectMode s1 then s1 else set_selection ∅ s1 in
  displayFlashcards (currentFlashcards s2) s2.

(** The click listener of the delete-selected button (lines 451-467). *)
Definition deleteSelectedButton_click (confirmed : bool) (st : State) : State :=
  if bool_decide (size (selectedCards st) = 0) then st
  else if confirmed then
    let s1 := savePreviousState st in
    let updatedFlashcards :=
      JS.filter_index (fun i => negb (bool_decide (i ∈ selectedCards s1)))
        (currentFlashcards s1) in
    let s2 := set_selection ∅ (set_mode false s1) in
    let s3 := set_env (saveFlashcards updatedFlashcards (env s2)) s2 in
    displayFlashcards updatedFlashcards s3
  else st.

(** The [dragover] listener of the container (lines 383-394).  The
    pointer geometry of [getDragAfterElement] is not modelled: [after] is
    the position of the element it returned, which is neither the
    dragged card nor a hidden one, or [None] for [null]. *)
Definition container_dragover (after : option nat) (st : State) : State :=
  match list_find (fun el => Is_true (dragging el)) (container st) with
  | None => st
  | Some (p, d) =>
      let others := delete p (container st) in
      match after with
      | None => set_container (others ++ [d]) st
      | Some a =>
          match container st !! a with
          | None => st
          | Some target =>
              if dragging target || hidden target then st
              else
                let a' := if a <? p then a else a - 1 in
                set_container (take a' others ++ d :: drop a' others) st
          end
      end
  end.

(** The click listener of a card (lines 308-315). *)
Definition card_click (pos : nat) (st : State) : State :=
  match container st !! pos with
  | None => st
  | Some el =>
      if isMultiSelectMode st then toggleCardSelection (data_index el) st
      else flipCard pos st
  end.

Inductive Key := Enter | Space | Escape | OtherKey.

(** The keydown listener of a card (lines 317-326). *)
Definition card_keydown (pos : nat) (key : Key) (st : State) : State :=
  match container st !! pos with
  | None => st
  | Some el =>
      match key with
      | Enter | Space =>
          if is_editing el then st
          else if isMultiSelectMode st then toggleCardSelection (data_index el) st
          else flipCard pos st
      | _ => st
      end
  end.

(** [handleKeydown] of the two editable fields (lines 251-262); the
    event then bubbles to the card's own keydown listener. *)
Definition field_keydown (pos : nat) (key : Key) (st : State) : State :=
  let st1 :=
    match key with
    | Enter => saveAndEndEditing pos st
    | Escape => cancelEditing pos st
    | _ => st
    end in
  card_keydown pos key st1.

Inductive Field := TermField | DefinitionField.

(** Typing into a field: possible only while it is content-editable. *)
Definition field_input (pos : nat) (f : Field) (text : string) (st : State) : State :=
  match container st !! pos with
  | None => st
  | Some el =>
      if is_editing el then
        match f with
        | TermField =>
            set_container (alter (set_texts text (definition_text el)) pos (container st)) st
        | DefinitionField =>
            set_container (alter (set_texts (term_text el) text) pos (container st)) st
        end
      else st
  end.

(** The drags modelled are drags of a card: the browser starts one, and
    so delivers [dragstart] and [dragend] to the card, only when the
    card's [draggable] attribute is set.  The class is added by a
    zero-delay timer, taken here as immediate. *)
Definition card_dragstart (pos : nat) (st : State) : State :=
  match container st !! pos with
  | None => st
  | Some el =>
      if draggable el
      then set_container (alter (set_dragging true) pos (container st)) st
      else st
  end.

(** The [dragend] listener of a card (lines 158-161). *)
Definition card_dragend (pos : nat) (st : State) : State :=
  match container st !! pos with
  | None => st
  | Some el =>
      if draggable el
      then updateOrderAndSave
             (set_container (alter (set_dragging false) pos (container st)) st)
      else st
  end.

(** The click listener of the generate button up to its [await]
    (lines 470-483).  A disabled button delivers no click. *)
Definition generate_click (topicValue : string) (st : State) : State :=
  if generateDisabled st then st
  else
    let topic := JS.trim topicValue in
    if negb (JS.truthy topic) then
      set_container []
        (set_error "Please enter a topic or some terms and definitions." st)
    else
      set_previous None
        (set_disabled true
           (set_container [] (set_error "Generating flashcards..." st))).

(** The rest of it when the request resolves with [responseText]
    (lines 493-522, 529-531); the button is disabled exactly while a
    request is pending. *)
Definition generate_resolved (responseText : string) (st : State) : State :=
  if negb (generateDisabled st) then st
  else
    let st1 :=
      if JS.truthy responseText then
        let flashcards := parse_response responseText in
        if 0 <? length flashcards then
          let s1 := displayFlashcards flashcards (set_error "" st) in
          set_env (saveFlashcards flashcards (env s1)) s1
        else
          set_error
            "No valid flashcards could be generated from the response. Please check the format."
            st
      else
        set_error
          "Failed to generate flashcards or received an empty response. Please try again."
          st in
    set_disabled false st1.

(** ... and when it rejects (lines 523-531). *)
Definition generate_rejected (message : string) (st : State) : State :=
  if negb (generateDisabled st) then st
  else
    let detailedError :=
      if JS.truthy message then message else "An unknown error occurred" in
    set_disabled false
      (set_container []
         (set_error ("An error occurred: " +:+ detailedError)
            (set_env (console_error "Error generating content:" (env st)) st))).

(** The timer the undo listener starts (lines 430-435). *)
Definition undo_message_timeout (st : State) : State :=
  if decide (errorMessage st = "Last action undone.") then set_error "" st else st.

(** ** Events *)

Inductive Event :=
| GenerateClick (topicValue : string)
| GenerateResolved (responseText : string)
| GenerateRejected (message : string)
| SearchInput (value : string)
| UndoClick
| UndoMessageTimeout
| SelectClick
| DeleteSelectedClick (confirmed : bool)
| CardClick (pos : nat)
| CardKeydown (pos : nat) (key : Key)
| EditClick (pos : nat)
| FieldInput (pos : nat) (field : Field) (text : string)
| FieldKeydown (pos : nat) (key : Key)
| FieldBlur (pos : nat)
| DeleteClick (pos : nat) (confirmed : bool)
| DragStart (pos : nat)
| DragOver (after : option nat)
| DragEnd (pos : nat)
| QuotaChange (exceeded : bool).

(** One event, handled to completion.  [pos] is the position in the
    container of the card the event is delivered to. *)
Definition step (ev : Event) (st : State) : State :=
  match ev with
  | GenerateClick v => generate_click v st
  | GenerateResolved t => generate_resolved t st
  | GenerateRejected m => generate_rejected m st
  | SearchInput v => applySearchFilter (set_search v st)
  | UndoClick => undoButton_click st
  | UndoMessageTimeout => undo_message_timeout st
  | SelectClick => selectButton_click st
  | DeleteSelectedClick c => deleteSelectedButton_click c st
  | CardClick pos => card_click pos st
  | CardKeydown pos k => card_keydown pos k st
  | EditClick pos => editButton_click pos st
  | FieldInput pos f t => field_input pos f t st
  | FieldKeydown pos k => field_keydown pos k st
  | FieldBlur pos => saveAndEndEditing pos st
  | DeleteClick pos c => deleteButton_click pos c st
  | DragStart pos => card_dragstart pos st
  | DragOver a => container_dragover a st
  | DragEnd pos => card_dragend pos st
  | QuotaChange b =>
      set_env (mkEnv (ls_items (env st)) b (ls_calls (env st))
                 (console_errors (env st))) st
  end.

Definition run (evs : list Event) (st : State) : State :=
  fold_left (fun s ev => step ev s) evs st.

(** The page before the initialization code runs. *)
Definition initial_page (e : Env) : State :=
  mkState [] None false ∅ [] "" "" false e.

(** App initialization (lines 568-571), for the card list
    [loadFlashcards] returned, if any. *)
Definition boot (initialFlashcards : option (list Flashcard)) (e : Env) : State :=
  match initialFlashcards with
  | Some l => if 0 <? length l then displayFlashcards l (initial_page e) else initial_page e
  | None => initial_page e
  end.

(** The states the page can be in. *)
Inductive reachable (init : State) : State -> Prop :=
| reachable_init : reachable init init
| reachable_step st ev : reachable init st -> reachable init (step ev st).

(** The events that end an edit through [saveAndEndEditing]: the Save
    button, Enter in a field, and the field losing focus. *)
Inductive saves_edit (pos : nat) : Event -> Prop :=
| saves_by_button : saves_edit pos (EditClick pos)
| saves_by_enter : saves_edit pos (FieldKeydown pos Enter)
| saves_by_blur : saves_edit pos (FieldBlur pos).

(** The destructive operations, each with what makes it go through in
    [st]: a confirmed single delete of a rendered card, a confirmed batch
    delete of a non-empty selection, the end of a drag of a draggable
    card, and the end of an edit that changed the card. *)
Inductive destructive (st : State) : Event -> Prop :=
| destructive_delete pos el :
    container st !! pos = Some el ->
    destructive st (DeleteClick pos true)
| destructive_batch :
    selectedCards st <> ∅ ->
    destructive st (DeleteSelectedClick true)
| destructive_reorder pos el :
    container st !! pos = Some el -> draggable el = true ->
    destructive st (DragEnd pos)
| destructive_edit pos el current ev :
    container st !! pos = Some el -> is_editing el = true ->
    currentFlashcards st !! data_index el = Some current ->
    term current <> JS.trim (term_text el)
    \/ definition current <> JS.trim (definition_text el) ->
    saves_edit pos ev ->
    destructive st ev.

(** What every rendered card satisfies: it is draggable exactly when
    multi-select mode is off, and its index is an index of the list. *)
Definition rendered_ok (st : State) (el : CardEl) : Prop :=
  draggable el = negb (isMultiSelectMode st) ∧
  data_index el < length (currentFlashcards st).

(** The invariant of the page: nothing is selected outside multi-select
    mode, and every rendered card is [rendered_ok]. *)
Definition page_invariant (st : State) : Prop :=
  (isMultiSelectMode st = false → selectedCards st = ∅) ∧
  Forall (rendered_ok st) (container st).

(** The card at [pos] is being edited, and Escape would put back the
    texts of the card it was rendered for. *)
Definition editing_since_render (pos : nat) (st : State) : Prop :=
  ∃ el, container st !! pos = Some el ∧ is_editing el = true ∧
        originalCardState el = Some (flashcard el).

(** What the page shows agrees with the variables behind it: the cards
    on the page, if any, carry the indices of the list, each once; in
    multi-select mode they stand in index order; a card is marked and
    ticked exactly when its index is selected; and only a draggable card
    is ever being dragged. *)
Definition rendered_sound (st : State) : Prop :=
  (container st = [] ∨
   map data_index (container st) ≡ₚ seq 0 (length (currentFlashcards st))) ∧
  (isMultiSelectMode st = true →
   map data_index (container st) = seq 0 (length (container st))) ∧
  Forall (fun el =>
            is_selected el = bool_decide (data_index el ∈ selectedCards st) ∧
            checked el = is_selected el ∧
            (dragging el = true → draggable el = true))
         (container st).

(** A change of one element that keeps what [rendered_sound] looks at. *)
Definition keeps_marks (f : CardEl → CardEl) : Prop :=
  ∀ el, data_index (f el) = data_index el ∧ is_selected (f el) = is_selected el ∧
        checked (f el) = checked el ∧ dragging (f el) = dragging el ∧
        draggable (f el) = draggable el.

(** [updateFlashcardCount] (lines 57-69): what it writes into the
    counter, as the two numbers of its text (the cards not hidden on the
    page, the cards of the list), or [None] when it empties and hides the
    counter. *)
Definition updateFlashcardCount (st : State) : option (nat * nat) :=
  let totalCards := length (currentFlashcards st) in
  if decide (totalCards = 0) then None
  else
    let visibleCards := length (List.filter (fun el => negb (hidden el)) (container st)) in
    Some (visibleCards, totalCards).

(** ** The vocabulary of the specification

    Definitions that follow the specification's words, for the
    statements below to compare the code with. *)

Module Spec.

(** The code unit [c] occurs in [s]. *)
Fixpoint has_unit (c : ascii) (s : string) : bool :=
  match s with
  | EmptyString => false
  | String b r => bool_decide (b = c) || has_unit c r
  end.

Definition newline : string := String "010"%char EmptyString.

(** A field of a card of the data model: non-empty and trimmed. *)
Definition valid_field (s : string) : Prop := s ≠ "" ∧ JS.trim s = s.

(** The last code unit of [s] is a colon. *)
Fixpoint ends_with_colon (s : string) : bool :=
  match s with
  | EmptyString => false
  | String c EmptyString => bool_decide (c = ":"%char)
  | String _ r => ends_with_colon r
  end.

(** One pair as a line: the term, a colon, a space, the definition. *)
Definition serialize_line (card : Flashcard) : string :=
  term card +:+ ": " +:+ definition card.

Definition serialize (cards : list Flashcard) : string :=
  JS.join newline (map serialize_line cards).

(** [w] is a substring of [s]. *)
Definition substring_of (w s : string) : Prop :=
  ∃ pre post, s = pre +:+ w +:+ post.

(** The pieces of [s] between the code units that satisfy [sep]. *)
Fixpoint pieces (sep : ascii -> bool) (s : string) : list string :=
  match s with
  | EmptyString => [EmptyString]
  | String c r =>
      if sep c then EmptyString :: pieces sep r
      else match pieces sep r with
           | [] => [String c EmptyString]
           | p :: ps => String c p :: ps
           end
  end.

(** The whitespace-separated tokens of a query, after trimming and
    lower-casing. *)
Definition whitespace_tokens (query : string) : list string :=
  List.filter JS.truthy (pieces JS.is_ws (JS.toLowerCase (JS.trim query))).

(** The tokens of a query separated by the space character alone. *)
Definition space_tokens (query : string) : list string :=
  List.filter JS.truthy
    (pieces (fun c => bool_decide (c = " "%char)) (JS.toLowerCase (JS.trim query))).

(** A list with the positions in [S] left out, the others in order. *)
Definition without_indices {A} (S : gset nat) (l : list A) : list A :=
  omap (fun i => l !! i) (List.filter (fun i => negb (bool_decide (i ∈ S))) (seq 0 (length l))).

(** The code units of a Latin-1 string. *)
Fixpoint units (s : string) : list N :=
  match s with
  | EmptyString => []
  | String c r => N_of_ascii c :: units r
  end.

(** The value of property [k] of an object with these members: the last
    one of that name. *)
Fixpoint member (k : list N) (ms : list (list N * JSON.value)) : option JSON.value :=
  match ms with
  | [] => None
  | (k', v) :: r =>
      match member k r with
      | Some v' => Some v'
      | None => if decide (k' = k) then Some v else None
      end
  end.

(** A [{term: string, definition: string}] record. *)
Definition is_card_record (v : JSON.value) : bool :=
  match v with
  | JSON.Object ms =>
      match member (units "term") ms, member (units "definition") ms with
      | Some (JSON.Str _), Some (JSON.Str _) => true
      | _, _ => false
      end
  | _ => false
  end.

(** The pairs the round-trip property is stated for: both fields valid,
    no newline in either, the definition not ending in a colon. *)
Definition roundtrip_pair (card : Flashcard) : Prop :=
  valid_field (term card) ∧ valid_field (definition card) ∧
  has_unit "010" (term card) = false ∧
  has_unit "010" (definition card) = false ∧
  ends_with_colon (definition card) = false.

(** The stored text is a well-formed JSON array of such records. *)
Definition well_formed_cards (saved : string) : bool :=
  match JSON.parse saved with
  | Some (JSON.Array vs) => forallb is_card_record vs
  | _ => false
  end.

End Spec.

(** The JSON value [JSON.stringify] writes for a card and [JSON.parse]
    reads back: an object with the two properties in creation order. *)
Definition card_value (card : Flashcard) : JSON.value :=
  JSON.Object [(Spec.units "term", JSON.Str (Spec.units (term card)));
               (Spec.units "definition", JSON.Str (Spec.units (definition card)))].

(** Everything of the page state but the environment. *)
Definition in_memory (st : State) :=
  (currentFlashcards st, previousState st, isMultiSelectMode st, selectedCards st,
   container st, searchValue st, errorMessage st, generateDisabled st).

(** ** The drop position of a drag (lines 352-367, 383-394)

    JavaScript numbers are IEEE 754 binary64 values, as are the
    primitive floats used here; [<?] on them is the comparison of
    JavaScript, false when an operand is NaN. *)

(** The part of [getBoundingClientRect()] that is read. *)
Record Box := mkBox { box_top : float; box_height : float }.

(** [y - box.top - box.height / 2] *)
Definition drag_offset (y : float) (box : Box) : float :=
  (y - box_top box - box_height box / 2)%float.

(** The accumulator of the reduction. *)
Record Closest := mkClosest { offset : float; element : option nat }.

(** The callback of [reduce]. *)
Definition closer (y : float) (closest : Closest) (child : nat * Box) : Closest :=
  let offset' := drag_offset y child.2 in
  if (offset' <? 0)%float && (offset closest <? offset')%float
  then mkClosest offset' (Some child.1)
  else closest.

(** [container.querySelectorAll('.flashcard:not(.dragging):not(.hidden)')]:
    the cards that are neither dragged nor hidden, in document order,
    each with its position and the box the layout gives it ([boxes], by
    position). *)
Definition draggableElements (els : list CardEl) (boxes : list Box) : list (nat * Box) :=
  omap (fun '(pos, (el, box)) =>
          if negb (dragging el) && negb (hidden el) then Some (pos, box) else None)
       (zip (seq 0 (length els)) (zip els boxes)).

(** [getDragAfterElement(container, y)], the result as a position. *)
Definition getDragAfterElement (els : list CardEl) (boxes : list Box) (y : float)
  : option nat :=
  element (fold_left (closer y) (draggableElements els boxes)
             (mkClosest neg_infinity None)).

(** What the reduction has found after the children [seen]. *)
Definition closest_of (y : float) (seen : list (nat * Box)) (cl : Closest) : Prop :=
  match element cl with
  | Some p => ∃ box, (p, box) ∈ seen ∧ offset cl = drag_offset y box ∧
                     (drag_offset y box <? 0)%float = true
  | None => offset cl = neg_infinity
  end ∧
  ∀ child, child ∈ seen → (drag_offset y child.2 <? 0)%float = true →
           (offset cl <? drag_offset y child.2)%float = false.

(** The [dragover] listener of the container (lines 383-394) for a
    pointer at [clientY], the cards laid out as [boxes]. *)
Definition flashcardsContainer_dragover (clientY : float) (boxes : list Box)
    (st : State) : State :=
  container_dragover (getDragAfterElement (container st) boxes clientY) st.

(** ** The theme (lines 539-563) *)

Definition THEME_LOCAL_STORAGE_KEY : string := "gemini-flashcards-theme".

(** What the theme code reads and writes: the [dark-mode] class of the
    body, the label of the toggle button, whether the toggle has its
    click listener, and the environment. *)
Record ThemePage := mkThemePage {
  dark_mode : bool;
  toggle_label : string;
  toggle_listening : bool;
  theme_env : Env }.

(** [setTheme(theme)].  The write to storage is not guarded: when it
    throws, the class has been set, the label has not, and the exception
    goes to the caller ([false]). *)
Definition setTheme (theme : string) (p : ThemePage) : ThemePage * bool :=
  let dark := bool_decide (theme = "dark") in
  match setItem THEME_LOCAL_STORAGE_KEY theme (theme_env p) with
  | (e', true) =>
      (mkThemePage dark
         (if dark then "Switch to light mode" else "Switch to dark mode")
         (toggle_listening p) e', true)
  | (e', false) => (mkThemePage dark (toggle_label p) (toggle_listening p) e', false)
  end.

(** The click listener of the theme toggle (lines 559-562); an exception
    in a listener ends the listener only. *)
Definition themeToggle_click (p : ThemePage) : ThemePage :=
  if toggle_listening p
  then (setTheme (if dark_mode p then "light" else "dark") p).1
  else p.

(** [initializeTheme()] for a system that prefers dark or not.  The
    listener is added after [setTheme] returned; [false] when
    [setTheme] threw. *)
Definition initializeTheme (systemPrefersDark : bool) (p : ThemePage)
  : ThemePage * bool :=
  let savedTheme := getItem THEME_LOCAL_STORAGE_KEY (theme_env p) in
  let chosen :=
    match savedTheme with
    | Some t => if JS.truthy t then t
                else if systemPrefersDark then "dark" else "light"
    | None => if systemPrefersDark then "dark" else "light"
    end in
  match setTheme chosen p with
  | (p', true) =>
      (mkThemePage (dark_mode p') (toggle_label p') true (theme_env p'), true)
  | (p', false) => (p', false)
  end.

(** ** Sample data *)

Definition sample_cards : list Flashcard :=
  [mkFlashcard "Hello" "Hola"; mkFlashcard "Time" "10:30"; mkFlashcard "a b" "c"].

Definition capitals : list Flashcard :=
  [mkFlashcard "France" "Paris"; mkFlashcard "Germany" "Berlin"].

Definition four_cards : list Flashcard :=
  [mkFlashcard "one" "1"; mkFlashcard "two" "2";
   mkFlashcard "three" "3"; mkFlashcard "four" "4"].

Definition empty_env : Env := mkEnv ∅ false [] [].

Definition row_boxes : list Box :=
  [mkBox 0 100; mkBox 100 100; mkBox 200 100; mkBox 300 100].

(** * Properties *)

(** ** Strings *)

Section Strings.

Lemma str_app_cons c (a b : string) : String c a +:+ b = String c (a +:+ b).
Proof. reflexivity. Qed.

Lemma str_app_empty_l (s : string) : "" +:+ s = s.
Proof. reflexivity. Qed.

Lemma str_app_empty_r (s : string) : s +:+ "" = s.
Proof. induction s as [|c s IH]; [done|]. by rewrite str_app_cons, IH. Qed.

Lemma str_app_assoc (a b c : string) : (a +:+ b) +:+ c = a +:+ (b +:+ c).
Proof. induction a as [|x a IH]; [done|]. by rewrite !str_app_cons, IH. Qed.

Lemma str_app_inv_head (a b c : string) : a +:+ b = a +:+ c → b = c.
Proof.
  induction a as [|x a IH]; [done|].
  rewrite !str_app_cons. intros [= H]. by apply IH.
Qed.

Lemma has_unit_app c (a b : string) :
  Spec.has_unit c (a +:+ b) = Spec.has_unit c a || Spec.has_unit c b.
Proof.
  induction a as [|x a IH]; [done|].
  rewrite str_app_cons. simpl. rewrite IH. by rewrite orb_assoc.
Qed.

Lemma split_nonempty sep s : JS.split sep s ≠ [].
Proof.
  destruct s as [|c s]; simpl; [done|].
  case_decide; [done|]. by destruct (JS.split sep s).
Qed.

Lemma split_app sep (a b : string) :
  JS.split sep (a +:+ String sep b) = JS.split sep a ++ JS.split sep b.
Proof.
  induction a as [|c a IH].
  - rewrite str_app_empty_l. simpl. by rewrite decide_True.
  - rewrite str_app_cons. simpl. rewrite IH. case_decide; [done|].
    pose proof (split_nonempty sep a) as Hne.
    by destruct (JS.split sep a).
Qed.

Lemma split_no_sep sep s : Spec.has_unit sep s = false → JS.split sep s = [s].
Proof.
  induction s as [|c s IH]; simpl; [done|].
  intros [Hc Hs]%orb_false_elim. apply bool_decide_eq_false in Hc.
  rewrite decide_False by done. by rewrite IH.
Qed.

Lemma join_split sep s : JS.join (String sep "") (JS.split sep s) = s.
Proof.
  induction s as [|c s IH]; simpl; [done|].
  pose proof (split_nonempty sep s) as Hne.
  case_decide as Hc.
  - subst c. destruct (JS.split sep s) as [|p ps] eqn:E; [done|].
    change (JS.join (String sep "") ("" :: p :: ps))
      with ("" +:+ String sep "" +:+ JS.join (String sep "") (p :: ps)).
    by rewrite IH.
  - destruct (JS.split sep s) as [|p ps] eqn:E; [done|].
    destruct ps as [|q ps].
    + simpl in *. by rewrite IH.
    + change (JS.join (String sep "") (String c p :: q :: ps))
        with (String c p +:+ String sep "" +:+ JS.join (String sep "") (q :: ps)).
      rewrite str_app_cons. f_equal. exact IH.
Qed.

(** A string either has no [sep], or is a [sep]-free head, [sep], and a rest. *)
Lemma first_sep sep s :
  Spec.has_unit sep s = false ∨
  ∃ h r, s = h +:+ String sep r ∧ Spec.has_unit sep h = false.
Proof.
  induction s as [|c s IH]; [by left|].
  destruct (decide (c = sep)) as [->|Hc].
  - right. by exists "", s.
  - destruct IH as [Hs|(h & r & -> & Hh)].
    + left. simpl. by rewrite bool_decide_eq_false_2.
    + right. exists (String c h), r. split; [done|].
      simpl. by rewrite bool_decide_eq_false_2.
Qed.

Lemma first_sep_unique sep (h h' r r' : string) :
  h +:+ String sep r = h' +:+ String sep r' →
  Spec.has_unit sep h = false → Spec.has_unit sep h' = false →
  h = h' ∧ r = r'.
Proof.
  revert h'. induction h as [|c h IH]; intros [|c' h']; rewrite ?str_app_cons, ?str_app_empty_l.
  - by intros [= ->].
  - intros [= <- _] _. simpl. by rewrite bool_decide_eq_true_2.
  - intros [= -> _]. simpl. by rewrite bool_decide_eq_true_2.
  - intros [= -> H] [_ Hh]%orb_false_elim [_ Hh']%orb_false_elim.
    destruct (IH _ H Hh Hh') as [-> ->]. done.
Qed.

Lemma truthy_ne s : JS.truthy s = true ↔ s ≠ "".
Proof. by destruct s. Qed.

End Strings.

(** ** The response parser *)

Section Parser.

Lemma parse_line_no_colon line :
  Spec.has_unit ":" line = false → parse_line line = None.
Proof. intros H. unfold parse_line. by rewrite split_no_sep. Qed.

Lemma parse_line_colon (h r : string) :
  Spec.has_unit ":" h = false →
  parse_line (h +:+ String ":" r) =
    if JS.truthy (JS.trim h) && JS.truthy (JS.trim r)
    then Some (mkFlashcard (JS.trim h) (JS.trim r)) else None.
Proof.
  intros H. unfold parse_line. rewrite split_app, split_no_sep by done.
  pose proof (split_nonempty ":" r) as Hne.
  destruct (JS.split ":" r) as [|p ps] eqn:E; [done|].
  cbn [app length Nat.leb andb lookup list_lookup default drop].
  rewrite <- E.
  change (JS.join ":" (JS.split ":" r)) with (JS.join (String ":" "") (JS.split ":" r)).
  rewrite join_split. unfold id.
  by destruct (JS.truthy (JS.trim h)), (JS.truthy (JS.trim r)).
Qed.

Lemma filter_non_null_omap {A B} (f : A → option B) (l : list A) :
  JS.filter_non_null (map f l) = omap f l.
Proof.
  induction l as [|x l IH]; [done|]. simpl. rewrite IH. by destruct (f x).
Qed.

Lemma parse_response_omap text :
  parse_response text = omap parse_line (JS.split "010" text).
Proof. apply filter_non_null_omap. Qed.

Lemma parse_response_app (t1 t2 : string) :
  parse_response (t1 +:+ Spec.newline +:+ t2) = parse_response t1 ++ parse_response t2.
Proof.
  rewrite !parse_response_omap. unfold Spec.newline.
  change (t1 +:+ String "010" "" +:+ t2) with (t1 +:+ String "010" t2).
  by rewrite split_app, omap_app.
Qed.

(** C5.  A line yields a card exactly when it is a colon-free head, a
    colon and a rest, with the trimmed head and the trimmed rest both
    non-empty; the card is then made of the two trimmed parts.  The cards
    of a text are those of its lines, line by line and in line order (the
    cards of two texts joined by a newline are the cards of the first
    followed by the cards of the second), and there may be none. *)
Theorem parse_response_line_by_line :
  (∀ line card,
     parse_line line = Some card ↔
     ∃ head rest,
       line = head +:+ ":" +:+ rest ∧ Spec.has_unit ":" head = false ∧
       JS.trim head ≠ "" ∧ JS.trim rest ≠ "" ∧
       card = mkFlashcard (JS.trim head) (JS.trim rest))
  ∧ (∀ text, parse_response text = omap parse_line (JS.split "010" text))
  ∧ (∀ t1 t2,
       parse_response (t1 +:+ Spec.newline +:+ t2)
       = parse_response t1 ++ parse_response t2)
  ∧ parse_response "" = [].
Proof.
  split; [|split; [apply parse_response_omap|split; [apply parse_response_app|done]]].
  intros line card. split.
  - intros Hp. destruct (first_sep ":" line) as [Hno|(h & r & -> & Hh)].
    + by rewrite parse_line_no_colon in Hp.
    + rewrite parse_line_colon in Hp by done.
      destruct (JS.truthy (JS.trim h)) eqn:Eh; [|done].
      destruct (JS.truthy (JS.trim r)) eqn:Er; [|done].
      injection Hp as <-. exists h, r.
      apply truthy_ne in Eh, Er. done.
  - intros (h & r & -> & Hh & Hth & Htr & ->).
    change (h +:+ ":" +:+ r) with (h +:+ String ":" r).
    rewrite parse_line_colon by done.
    apply truthy_ne in Hth, Htr. by rewrite Hth, Htr.
Qed.

Example parse_response_mixed :
  parse_response ("Hello: Hola" +:+ Spec.newline +:+ "no colon here" +:+ Spec.newline
                  +:+ ": empty head" +:+ Spec.newline +:+ "Time: 10:30" +:+ Spec.newline
                  +:+ "x:   ")
  = [mkFlashcard "Hello" "Hola"; mkFlashcard "Time" "10:30"].
Proof. reflexivity. Qed.

Lemma trim_leading_space (s : string) : JS.trim (" " +:+ s) = JS.trim s.
Proof. reflexivity. Qed.

(** One serialized line parses back to its pair.  The definition may end
    in a colon; the term may not contain one. *)
Lemma parse_line_serialize_line card :
  Spec.valid_field (term card) → Spec.valid_field (definition card) →
  Spec.has_unit ":" (term card) = false →
  parse_line (Spec.serialize_line card) = Some card.
Proof.
  intros [Hne Ht] [Hne' Hd] Hc. destruct card as [t d]; simpl in *.
  unfold Spec.serialize_line; simpl.
  change (t +:+ ": " +:+ d) with (t +:+ String ":" (" " +:+ d)).
  rewrite parse_line_colon by done.
  rewrite trim_leading_space, Ht, Hd.
  apply truthy_ne in Hne, Hne'. by rewrite Hne, Hne'.
Qed.

Lemma parse_response_serialize_line card :
  Spec.valid_field (term card) → Spec.valid_field (definition card) →
  Spec.has_unit ":" (term card) = false →
  Spec.has_unit "010" (term card) = false →
  Spec.has_unit "010" (definition card) = false →
  parse_response (Spec.serialize_line card) = [card].
Proof.
  intros Ht Hd Hc Hnt Hnd. rewrite parse_response_omap.
  rewrite split_no_sep.
  - simpl. by rewrite parse_line_serialize_line.
  - unfold Spec.serialize_line. rewrite !has_unit_app, Hnt, Hnd. done.
Qed.

(** The round trip, for terms without a colon. *)
Lemma parse_response_serialize cards :
  Forall (fun card =>
            Spec.valid_field (term card) ∧ Spec.valid_field (definition card) ∧
            Spec.has_unit ":" (term card) = false ∧
            Spec.has_unit "010" (term card) = false ∧
            Spec.has_unit "010" (definition card) = false) cards →
  parse_response (Spec.serialize cards) = cards.
Proof.
  induction 1 as [|card cards (Ht & Hd & Hc & Hnt & Hnd) Hall IH]; [done|].
  destruct cards as [|card' cards].
  - by apply parse_response_serialize_line.
  - change (Spec.serialize (card :: card' :: cards))
      with (Spec.serialize_line card +:+ Spec.newline +:+ Spec.serialize (card' :: cards)).
    rewrite parse_response_app, IH.
    by rewrite parse_response_serialize_line.
Qed.

(** C4, amended.  For every list of valid pairs with no embedded
    newlines, definitions not ending in a colon, and terms containing no
    colon, serializing each pair to a line and parsing the lines joined
    by newlines yields the original list. *)
Theorem parser_roundtrip cards :
  Forall Spec.roundtrip_pair cards →
  Forall (fun card => Spec.has_unit ":" (term card) = false) cards →
  parse_response (Spec.serialize cards) = cards.
Proof.
  intros H1 H2. apply parse_response_serialize.
  apply Forall_forall. intros card Hin.
  rewrite Forall_forall in H1, H2.
  destruct (H1 _ Hin) as (? & ? & ? & ? & _). specialize (H2 _ Hin). done.
Qed.

Lemma parser_roundtrip_witness :
  parse_response (Spec.serialize sample_cards) = sample_cards.
Proof.
  apply (parser_roundtrip sample_cards).
  - repeat constructor; done.
  - repeat constructor.
Defined.

(** C4 as stated fails: a term may contain a colon, and the parser cuts
    the line at the first one. *)
Lemma parser_roundtrip_colon_in_term :
  ¬ (∀ cards, Forall Spec.roundtrip_pair cards →
              parse_response (Spec.serialize cards) = cards).
Proof.
  intros H. specialize (H [mkFlashcard "a:b" "c"]).
  assert (Hv : Forall Spec.roundtrip_pair [mkFlashcard "a:b" "c"]).
  { repeat constructor; done. }
  specialize (H Hv). vm_compute in H. discriminate H.
Qed.

End Parser.

(** ** The search filter *)

Section Filter.

Lemma startsWith_spec (s w : string) :
  JS.startsWith s w = true ↔ ∃ post, s = w +:+ post.
Proof.
  revert s. induction w as [|a w IH]; intros s.
  - destruct s; simpl; split; eauto.
  - destruct s as [|b s]; simpl.
    + split; [done|]. by intros [post H].
    + case_decide as Hab.
      * subst b. rewrite IH. split.
        -- intros [post ->]. by exists post.
        -- intros [post H]. rewrite str_app_cons in H. injection H as ->. by exists post.
      * split; [done|]. intros [post H]. rewrite str_app_cons in H. by injection H as -> _.
Qed.

Lemma includes_spec (s w : string) :
  JS.includes s w = true ↔ Spec.substring_of w s.
Proof.
  unfold Spec.substring_of. induction s as [|c s IH].
  - cbn [JS.includes]. rewrite orb_false_r, startsWith_spec. split.
    + intros [post H]. by exists "", post.
    + intros ([|x pre] & post & H); [by exists post|done].
  - cbn [JS.includes]. rewrite orb_true_iff, startsWith_spec, IH. split.
    + intros [[post H]|(pre & post & H)].
      * by exists "", post.
      * exists (String c pre), post. by rewrite str_app_cons, H.
    + intros ([|x pre] & post & H).
      * left. by exists post.
      * right. rewrite str_app_cons in H. injection H as -> ->. by exists pre, post.
Qed.

Lemma toLowerCase_app (a b : string) :
  JS.toLowerCase (a +:+ b) = JS.toLowerCase a +:+ JS.toLowerCase b.
Proof. induction a as [|c a IH]; [done|]. rewrite str_app_cons. simpl. by rewrite IH. Qed.

Lemma card_text_eq card :
  card_text card
  = JS.toLowerCase (term card) +:+ " " +:+ JS.toLowerCase (definition card).
Proof. unfold card_text. by rewrite !toLowerCase_app. Qed.

(** A [sep]-free prefix of [a sep b] is a prefix of [a]. *)
Lemma prefix_before_sep sep (a b w post : string) :
  a +:+ String sep b = w +:+ post → Spec.has_unit sep w = false →
  ∃ post', a = w +:+ post'.
Proof.
  revert a. induction w as [|x w IH]; intros a H Hw; [by exists a|].
  simpl in Hw. apply orb_false_elim in Hw as [Hx Hw]. apply bool_decide_eq_false in Hx.
  destruct a as [|y a].
  - rewrite str_app_empty_l, str_app_cons in H. by injection H as <- _.
  - rewrite !str_app_cons in H. injection H as -> H.
    destruct (IH _ H Hw) as [post' ->]. by exists post'.
Qed.

(** A non-empty [sep]-free string inside [a sep b] is inside [a] or
    inside [b]. *)
Lemma substring_apart sep (a b w : string) :
  w ≠ "" → Spec.has_unit sep w = false →
  Spec.substring_of w (a +:+ String sep b) ↔
  Spec.substring_of w a ∨ Spec.substring_of w b.
Proof.
  intros Hne Hw. split.
  - intros (pre & post & H). revert a H.
    induction pre as [|c pre IH]; intros a H.
    + rewrite str_app_empty_l in H.
      destruct (prefix_before_sep _ _ _ _ _ H Hw) as [post' ->].
      left. by exists "", post'.
    + destruct a as [|y a].
      * rewrite str_app_empty_l, str_app_cons in H. injection H as _ ->.
        right. by exists pre, post.
      * rewrite !str_app_cons in H. injection H as -> H.
        destruct (IH _ H) as [(p & q & ->)|Hb]; [|by right].
        left. by exists (String c p), q.
  - intros [(pre & post & ->)|(pre & post & ->)].
    + exists pre, (post +:+ String sep b). by rewrite !str_app_assoc.
    + exists (a +:+ String sep pre), post. by rewrite !str_app_assoc.
Qed.

Lemma split_pieces sep s :
  JS.split sep s = Spec.pieces (fun c => bool_decide (c = sep)) s.
Proof.
  induction s as [|c s IH]; [done|]. simpl. rewrite IH.
  by destruct (decide (c = sep)) as [H|H];
    [rewrite bool_decide_eq_true_2|rewrite bool_decide_eq_false_2].
Qed.

Lemma split_pieces_sep_free sep s p :
  p ∈ JS.split sep s → Spec.has_unit sep p = false.
Proof.
  revert p. induction s as [|c s IH]; intros p; simpl.
  - by intros ->%list_elem_of_singleton.
  - pose proof (split_nonempty sep s) as Hne. case_decide as Hc.
    + intros [->|H]%elem_of_cons; [done|]. by apply IH.
    + destruct (JS.split sep s) as [|q qs]; [done|].
      intros [->|H]%elem_of_cons.
      * simpl. rewrite bool_decide_eq_false_2 by done. apply IH. by left.
      * apply IH. by right.
Qed.

(** The words of a query are non-empty and contain no space. *)
Lemma search_words_shape query w :
  w ∈ search_words query → w ≠ "" ∧ Spec.has_unit " " w = false.
Proof.
  unfold search_words. rewrite list_elem_of_In, filter_In, <- list_elem_of_In.
  intros [Hin Hlen]. split.
  - intros ->. done.
  - by eapply split_pieces_sep_free.
Qed.

Lemma card_visible_spec words card :
  card_visible words card = true ↔
  ∀ w, w ∈ words → Spec.substring_of w (card_text card).
Proof.
  unfold card_visible. destruct words as [|w0 words].
  - simpl. split; [|done]. by intros _ w ?%elem_of_nil.
  - cbn [length Nat.ltb Nat.leb]. rewrite forallb_forall. split.
    + intros H w Hw. apply includes_spec, H. by apply list_elem_of_In.
    + intros H w Hw. apply includes_spec, H. by apply list_elem_of_In.
Qed.

(** What [applySearchFilter] leaves at each position of the container. *)
Lemma filter_loop_lookup words k cards els i :
  filter_loop words k cards els !! i =
    match (if decide (k ≤ i) then cards !! (i - k) else None) with
    | Some card => set_hidden (negb (card_visible words card)) <$> els !! i
    | None => els !! i
    end.
Proof.
  revert k els. induction cards as [|card cards IH]; intros k els.
  - simpl. by case_decide.
  - cbn [filter_loop]. rewrite IH.
    assert (Hother : ∀ f, i ≠ k →
              (match els !! k with
               | Some _ => alter f k els | None => els end) !! i = els !! i).
    { intros f Hik. destruct (els !! k); [|done]. by apply list_lookup_alter_ne. }
    destruct (decide (S k ≤ i)) as [Hlt|Hge].
    + rewrite decide_True by lia.
      replace (i - k) with (S (i - S k)) by lia. cbn [lookup list_lookup].
      change (list_lookup (i - S k) cards) with (cards !! (i - S k)).
      rewrite Hother by lia. done.
    + destruct (decide (k ≤ i)) as [Hle|Hgt]; [|by rewrite Hother by lia].
      assert (i = k) as -> by lia. rewrite Nat.sub_diag. cbn [lookup list_lookup].
      destruct (els !! k) as [el|] eqn:E; [|by rewrite E].
      by rewrite list_lookup_alter_eq, E.
Qed.

Lemma search_words_space_tokens query :
  search_words query = Spec.space_tokens query.
Proof.
  unfold search_words, Spec.space_tokens. rewrite split_pieces.
  apply filter_ext. by intros [|c w].
Qed.

Lemma applySearchFilter_lookup st i card el :
  currentFlashcards st !! i = Some card → container st !! i = Some el →
  container (applySearchFilter st) !! i
  = Some (set_hidden (negb (card_visible (search_words (searchValue st)) card)) el).
Proof.
  intros Hc He. unfold applySearchFilter. cbn [container set_container].
  rewrite filter_loop_lookup, decide_True by lia.
  rewrite Nat.sub_0_r, Hc, He. done.
Qed.

(** C3, amended.  After a search input the query is trimmed, lower-cased
    and cut at each space character into non-empty tokens; the card at
    each position is visible iff every token is a substring of the
    lower-cased text made of its term, one space and its definition, that
    is, of its lower-cased term or of its lower-cased definition; with no
    token every card is visible. *)
Theorem search_filter_visibility st query i card el :
  currentFlashcards st !! i = Some card →
  container st !! i = Some el →
  let st' := step (SearchInput query) st in
  let tokens := Spec.space_tokens query in
  search_words query = tokens ∧
  ∃ el',
    container st' !! i = Some el' ∧
    (hidden el' = false ↔
       ∀ w, w ∈ tokens →
            Spec.substring_of w (JS.toLowerCase (term card +:+ " " +:+ definition card))) ∧
    (hidden el' = false ↔
       ∀ w, w ∈ tokens →
            Spec.substring_of w (JS.toLowerCase (term card)) ∨
            Spec.substring_of w (JS.toLowerCase (definition card))) ∧
    (tokens = [] → hidden el' = false).
Proof.
  intros Hc He st' tokens. subst st' tokens.
  rewrite <- search_words_space_tokens. split; [done|].
  eexists. split.
  { cbn [step]. apply applySearchFilter_lookup; [exact Hc|exact He]. }
  cbn [hidden set_hidden searchValue set_search].
  rewrite negb_false_iff, card_visible_spec.
  split; [done|]. split.
  - split.
    + intros H w Hw. specialize (H w Hw).
      destruct (search_words_shape _ _ Hw) as [Hne Hsp].
      rewrite card_text_eq in H.
      by apply (substring_apart " " _ _ _ Hne Hsp).
    + intros H w Hw. specialize (H w Hw).
      destruct (search_words_shape _ _ Hw) as [Hne Hsp].
      rewrite card_text_eq.
      by apply (substring_apart " " _ _ _ Hne Hsp).
  - intros -> w Hw. by apply elem_of_nil in Hw.
Qed.

Lemma search_filter_visibility_witness :
  ∃ el',
    container (step (SearchInput "germ BERL") (boot (Some capitals) empty_env)) !! 1
    = Some el' ∧ hidden el' = false.
Proof.
  destruct (search_filter_visibility (boot (Some capitals) empty_env) "germ BERL" 1
              (mkFlashcard "Germany" "Berlin")
              (render_card (initial_page empty_env) 1 (mkFlashcard "Germany" "Berlin"))
              eq_refl eq_refl) as (_ & el' & Hl & _ & _ & _).
  exists el'. split; [exact Hl|].
  vm_compute in Hl. injection Hl as <-. reflexivity.
Defined.

(** C3 as stated fails: the text matched has a space between term and
    definition, so a token that spans the two does not match. *)
Lemma search_filter_not_plain_concatenation :
  ¬ (∀ query card,
       card_visible (search_words query) card = true ↔
       ∀ w, w ∈ Spec.whitespace_tokens query →
            Spec.substring_of w (JS.toLowerCase (term card +:+ definition card))).
Proof.
  intros H. destruct (H "ab" (mkFlashcard "a" "b")) as [_ Hback].
  assert (Hvis : card_visible (search_words "ab") (mkFlashcard "a" "b") = true).
  { apply Hback. intros w Hw. vm_compute in Hw.
    apply list_elem_of_singleton in Hw as ->. by exists "", "". }
  vm_compute in Hvis. discriminate Hvis.
Qed.

(** Nor are the tokens cut at every whitespace: a tab inside the query
    stays inside a token. *)
Lemma search_words_tab :
  search_words (String "a" (String "009" "b")) = [String "a" (String "009" "b")] ∧
  Spec.whitespace_tokens (String "a" (String "009" "b")) = ["a"; "b"].
Proof. split; reflexivity. Qed.

(** The example of the specification: conjunctive and case-insensitive. *)
Example search_filter_capitals :
  map (card_visible (search_words "fra germ")) capitals = [false; false] ∧
  map (card_visible (search_words "germ berl")) capitals = [false; true] ∧
  map (card_visible (search_words "  ")) capitals = [true; true].
Proof. repeat split; reflexivity. Qed.

End Filter.

(** ** Loading from storage *)

Section Load.

Lemma getItem_removeItem key e : getItem key (removeItem key e) = None.
Proof. unfold getItem, removeItem. simpl. apply lookup_delete_eq. Qed.

Lemma getItem_removeItem_ne key key' e :
  key ≠ key' → getItem key' (removeItem key e) = getItem key' e.
Proof. intros H. unfold getItem, removeItem. simpl. by apply lookup_delete_ne. Qed.

(** C2, amended.  On load, a stored text on which [JSON.parse] throws is
    treated as absence of data: nothing is returned and the entry is
    removed from storage, the other entries staying.  A stored text that
    parses is returned as parsed, whatever its shape, and storage is left
    as it is; so it is when nothing, or the empty text, is stored, and
    nothing is returned then. *)
Theorem loadFlashcards_cases e :
  (getItem FLASHCARDS_LOCAL_STORAGE_KEY e = None → loadFlashcards e = (JSON.Null, e)) ∧
  (getItem FLASHCARDS_LOCAL_STORAGE_KEY e = Some "" → loadFlashcards e = (JSON.Null, e)) ∧
  (∀ saved,
     getItem FLASHCARDS_LOCAL_STORAGE_KEY e = Some saved → saved ≠ "" →
     JSON.parse saved = None →
     (loadFlashcards e).1 = JSON.Null ∧
     getItem FLASHCARDS_LOCAL_STORAGE_KEY (loadFlashcards e).2 = None ∧
     ls_calls (loadFlashcards e).2
     = ls_calls e ++ [RemoveItem FLASHCARDS_LOCAL_STORAGE_KEY] ∧
     ∀ key, key ≠ FLASHCARDS_LOCAL_STORAGE_KEY →
            getItem key (loadFlashcards e).2 = getItem key e) ∧
  (∀ saved v,
     getItem FLASHCARDS_LOCAL_STORAGE_KEY e = Some saved → saved ≠ "" →
     JSON.parse saved = Some v →
     loadFlashcards e = (v, e)).
Proof.
  unfold loadFlashcards. repeat split.
  - by intros ->.
  - by intros ->.
  - rewrite H. apply truthy_ne in H0. by rewrite H0, H1.
  - rewrite H. apply truthy_ne in H0. rewrite H0, H1. cbn [snd].
    apply getItem_removeItem.
  - rewrite H. apply truthy_ne in H0. by rewrite H0, H1.
  - intros key Hkey. rewrite H. apply truthy_ne in H0. rewrite H0, H1. cbn [snd].
    by rewrite getItem_removeItem_ne.
  - intros saved v H H0 H1. rewrite H. apply truthy_ne in H0. by rewrite H0, H1.
Qed.

(** C2 as stated fails: a stored text that parses is not checked for its
    shape.  The array [[1]] is returned and stays in storage. *)
Lemma loadFlashcards_keeps_other_shapes :
  ¬ (∀ e saved,
       getItem FLASHCARDS_LOCAL_STORAGE_KEY e = Some saved →
       Spec.well_formed_cards saved = false →
       (loadFlashcards e).1 = JSON.Null ∧
       getItem FLASHCARDS_LOCAL_STORAGE_KEY (loadFlashcards e).2 = None).
Proof.
  intros H.
  pose (e := mkEnv {[ FLASHCARDS_LOCAL_STORAGE_KEY := "[1]" ]} false [] []).
  assert (Hget : getItem FLASHCARDS_LOCAL_STORAGE_KEY e = Some "[1]") by reflexivity.
  assert (Hshape : Spec.well_formed_cards "[1]" = false) by reflexivity.
  destruct (H e "[1]" Hget Hshape) as [Hv _].
  vm_compute in Hv. discriminate Hv.
Qed.

(** Other stored texts that are kept: an object, a number, and the empty
    text, which is not parsed at all. *)
Example loadFlashcards_kept :
  let stored s := mkEnv {[ FLASHCARDS_LOCAL_STORAGE_KEY := s ]} false [] [] in
  loadFlashcards (stored "{}") = (JSON.Object [], stored "{}") ∧
  loadFlashcards (stored "42") = (JSON.Number "42", stored "42") ∧
  loadFlashcards (stored "null") = (JSON.Null, stored "null") ∧
  loadFlashcards (stored "") = (JSON.Null, stored "") ∧
  (loadFlashcards (stored "[1,")).1 = JSON.Null ∧
  getItem FLASHCARDS_LOCAL_STORAGE_KEY (loadFlashcards (stored "[1,")).2 = None.
Proof. repeat split; reflexivity. Qed.

(** What the page itself stores is a well-formed array of records. *)
Example stringify_sample_well_formed :
  Spec.well_formed_cards (stringify sample_cards) = true ∧
  JSON.parse (stringify [mkFlashcard "a" "b"])
  = Some (JSON.Array [JSON.Object [(Spec.units "term", JSON.Str (Spec.units "a"));
                                   (Spec.units "definition", JSON.Str (Spec.units "b"))]]).
Proof. split; reflexivity. Qed.

End Load.

(** ** The handlers: what each leaves alone *)

Section Frames.

Lemma copy_cards (l : list Flashcard) :
  map (fun card => mkFlashcard (term card) (definition card)) l = l.
Proof. induction l as [|[t d] l IH]; [done|]. simpl. by rewrite IH. Qed.

Lemma savePreviousState_eq st :
  savePreviousState st = set_previous (Some (currentFlashcards st)) st.
Proof. unfold savePreviousState. by rewrite copy_cards. Qed.

Lemma displayFlashcards_cards l st : currentFlashcards (displayFlashcards l st) = l.
Proof. unfold displayFlashcards. by case_decide. Qed.

Lemma displayFlashcards_previous l st :
  previousState (displayFlashcards l st) = previousState st.
Proof. unfold displayFlashcards. by case_decide. Qed.

Lemma displayFlashcards_env l st : env (displayFlashcards l st) = env st.
Proof. unfold displayFlashcards. by case_decide. Qed.

Lemma displayFlashcards_selection l st :
  selectedCards (displayFlashcards l st) = selectedCards st.
Proof. unfold displayFlashcards. by case_decide. Qed.

Lemma displayFlashcards_mode l st :
  isMultiSelectMode (displayFlashcards l st) = isMultiSelectMode st.
Proof. unfold displayFlashcards. by case_decide. Qed.

Lemma displayFlashcards_container l st :
  container (displayFlashcards l st) = imap (render_card st) l.
Proof. unfold displayFlashcards. by case_decide. Qed.

Lemma saveFlashcards_calls l e :
  ls_calls (saveFlashcards l e)
  = ls_calls e ++ [SetItem FLASHCARDS_LOCAL_STORAGE_KEY (stringify l)].
Proof. unfold saveFlashcards, setItem. by destruct (ls_quota_exceeded e). Qed.

Lemma saveFlashcards_stored l e :
  ls_quota_exceeded e = false →
  getItem FLASHCARDS_LOCAL_STORAGE_KEY (saveFlashcards l e) = Some (stringify l).
Proof.
  intros H. unfold saveFlashcards, setItem, getItem. rewrite H. simpl.
  apply lookup_insert_eq.
Qed.

Lemma saveFlashcards_quota l e :
  ls_quota_exceeded (saveFlashcards l e) = ls_quota_exceeded e.
Proof. unfold saveFlashcards, setItem. by destruct (ls_quota_exceeded e). Qed.

Lemma toggleCardSelection_frame index st :
  currentFlashcards (toggleCardSelection index st) = currentFlashcards st ∧
  previousState (toggleCardSelection index st) = previousState st ∧
  env (toggleCardSelection index st) = env st.
Proof.
  unfold toggleCardSelection. destruct (container st !! index); [|done].
  by case_bool_decide.
Qed.

Lemma flipCard_frame pos st :
  currentFlashcards (flipCard pos st) = currentFlashcards st ∧
  previousState (flipCard pos st) = previousState st ∧
  env (flipCard pos st) = env st.
Proof.
  unfold flipCard. destruct (container st !! pos) as [el|]; [|done].
  by destruct (is_editing el).
Qed.

Lemma card_keydown_frame pos key st :
  currentFlashcards (card_keydown pos key st) = currentFlashcards st ∧
  previousState (card_keydown pos key st) = previousState st ∧
  env (card_keydown pos key st) = env st.
Proof.
  unfold card_keydown. destruct (container st !! pos) as [el|]; [|done].
  destruct key; try done; destruct (is_editing el); try done;
    destruct (isMultiSelectMode st);
    auto using toggleCardSelection_frame, flipCard_frame.
Qed.

End Frames.

(** ** Undo *)

Section Undo.

Lemma undo_without_snapshot st :
  previousState st = None → step UndoClick st = st.
Proof. intros H. cbn [step]. unfold undoButton_click. by rewrite H. Qed.

Lemma undo_with_snapshot st snapshot :
  previousState st = Some snapshot →
  currentFlashcards (step UndoClick st) = snapshot ∧
  previousState (step UndoClick st) = None ∧
  ls_calls (env (step UndoClick st))
  = ls_calls (env st) ++ [SetItem FLASHCARDS_LOCAL_STORAGE_KEY (stringify snapshot)] ∧
  (ls_quota_exceeded (env st) = false →
   getItem FLASHCARDS_LOCAL_STORAGE_KEY (env (step UndoClick st))
   = Some (stringify snapshot)).
Proof.
  intros H. cbn [step]. unfold undoButton_click. rewrite H.
  cbn [currentFlashcards previousState env set_error set_previous
       applySearchFilter set_container set_env].
  rewrite displayFlashcards_cards, displayFlashcards_env.
  repeat split.
  - apply saveFlashcards_calls.
  - apply saveFlashcards_stored.
Qed.

(** C7.  Without a snapshot a click on undo changes nothing at all.  With
    a snapshot it makes the snapshot the current list, asks storage to
    save it (and storage holds it unless the write fails), and empties
    the slot.  So a second click in a row changes nothing. *)
Theorem undo_one_shot st :
  (previousState st = None → step UndoClick st = st) ∧
  (∀ snapshot,
     previousState st = Some snapshot →
     currentFlashcards (step UndoClick st) = snapshot ∧
     previousState (step UndoClick st) = None ∧
     ls_calls (env (step UndoClick st))
     = ls_calls (env st) ++ [SetItem FLASHCARDS_LOCAL_STORAGE_KEY (stringify snapshot)] ∧
     (ls_quota_exceeded (env st) = false →
      getItem FLASHCARDS_LOCAL_STORAGE_KEY (env (step UndoClick st))
      = Some (stringify snapshot))) ∧
  step UndoClick (step UndoClick st) = step UndoClick st.
Proof.
  split; [apply undo_without_snapshot|].
  split; [apply undo_with_snapshot|].
  destruct (previousState st) as [snapshot|] eqn:E.
  - apply undo_without_snapshot. by apply (undo_with_snapshot st snapshot).
  - rewrite (undo_without_snapshot st E). exact (undo_without_snapshot st E).
Qed.

End Undo.

(** ** The destructive operations and the snapshot *)

Section Snapshot.

Lemma selection_size_zero (S : gset nat) : size S = 0 ↔ S = ∅.
Proof. rewrite size_empty_iff. by unfold_leibniz. Qed.

Lemma saveAndEndEditing_changed st pos el current :
  container st !! pos = Some el → is_editing el = true →
  currentFlashcards st !! data_index el = Some current →
  term current ≠ JS.trim (term_text el)
  ∨ definition current ≠ JS.trim (definition_text el) →
  previousState (saveAndEndEditing pos st) = Some (currentFlashcards st) ∧
  currentFlashcards (saveAndEndEditing pos st)
  = <[data_index el := mkFlashcard (JS.trim (term_text el)) (JS.trim (definition_text el))]>
      (currentFlashcards st).
Proof.
  intros Hel Hed Hcur Hch. unfold saveAndEndEditing.
  rewrite Hel, Hed, Hcur. cbn [negb].
  assert (bool_decide (term current ≠ JS.trim (term_text el))
          || bool_decide (definition current ≠ JS.trim (definition_text el)) = true) as ->.
  { apply orb_true_iff. destruct Hch; [left|right]; by apply bool_decide_eq_true. }
  rewrite savePreviousState_eq. done.
Qed.

Lemma saveAndEndEditing_unchanged st pos el current :
  container st !! pos = Some el → is_editing el = true →
  currentFlashcards st !! data_index el = Some current →
  JS.trim (term_text el) = term current →
  JS.trim (definition_text el) = definition current →
  saveAndEndEditing pos st = exitEditMode pos st.
Proof.
  intros Hel Hed Hcur Ht Hd. unfold saveAndEndEditing.
  rewrite Hel, Hed, Hcur, Ht, Hd. cbn [negb].
  by rewrite !bool_decide_eq_false_2 by (intros H; by apply H).
Qed.

Lemma saves_edit_step st pos el ev :
  container st !! pos = Some el → is_editing el = true → saves_edit pos ev →
  currentFlashcards (step ev st) = currentFlashcards (saveAndEndEditing pos st) ∧
  previousState (step ev st) = previousState (saveAndEndEditing pos st) ∧
  env (step ev st) = env (saveAndEndEditing pos st).
Proof.
  intros Hel Hed [| |]; cbn [step].
  - unfold editButton_click. by rewrite Hel, Hed.
  - unfold field_keydown. apply card_keydown_frame.
  - done.
Qed.

Lemma updateOrderAndSave_previous st :
  previousState (updateOrderAndSave st) = Some (currentFlashcards st).
Proof.
  unfold updateOrderAndSave. rewrite savePreviousState_eq.
  cbn [previousState set_env applySearchFilter set_container].
  by rewrite displayFlashcards_previous.
Qed.

(** Each destructive operation puts the list it found into the slot,
    whatever the slot held. *)
Lemma destructive_snapshot st ev :
  destructive st ev → previousState (step ev st) = Some (currentFlashcards st).
Proof.
  intros [pos el Hel|Hsel|pos el Hel Hdr|pos el current ev' Hel Hed Hcur Hch Hev].
  - cbn [step]. unfold deleteButton_click. rewrite Hel.
    rewrite displayFlashcards_previous, savePreviousState_eq. done.
  - cbn [step]. unfold deleteSelectedButton_click.
    rewrite bool_decide_eq_false_2 by (by rewrite selection_size_zero).
    rewrite displayFlashcards_previous, savePreviousState_eq. done.
  - cbn [step]. unfold card_dragend. rewrite Hel, Hdr.
    by rewrite updateOrderAndSave_previous.
  - destruct (saves_edit_step st pos el ev' Hel Hed Hev) as (_ & -> & _).
    by apply (saveAndEndEditing_changed st pos el current).
Qed.

(** C6.  After two destructive operations in a row, one undo brings back
    the list as it was just before the second one (and asks storage to
    save it); the slot is then empty, so a further undo changes nothing
    and the list before the first operation is not brought back. *)
Theorem undo_single_slot st ev1 ev2 :
  destructive st ev1 →
  destructive (step ev1 st) ev2 →
  let before_second := step ev1 st in
  let undone := step UndoClick (step ev2 before_second) in
  previousState (step ev2 before_second) = Some (currentFlashcards before_second) ∧
  currentFlashcards undone = currentFlashcards before_second ∧
  previousState undone = None ∧
  (ls_quota_exceeded (env (step ev2 before_second)) = false →
   getItem FLASHCARDS_LOCAL_STORAGE_KEY (env undone)
   = Some (stringify (currentFlashcards before_second))) ∧
  step UndoClick undone = undone.
Proof.
  intros H1 H2 before_second undone. subst before_second undone.
  pose proof (destructive_snapshot _ _ H2) as Hsnap.
  destruct (undo_with_snapshot _ _ Hsnap) as (Hc & Hp & _ & Hs).
  repeat split; try done.
  by apply undo_without_snapshot.
Qed.

Lemma undo_single_slot_witness :
  currentFlashcards
    (run [DeleteClick 1 true; DragEnd 0; UndoClick] (boot (Some four_cards) empty_env))
  = [mkFlashcard "one" "1"; mkFlashcard "three" "3"; mkFlashcard "four" "4"].
Proof.
  pose (st := boot (Some four_cards) empty_env).
  assert (H1 : destructive st (DeleteClick 1 true)).
  { by apply (destructive_delete st 1 (render_card (initial_page empty_env) 1
                                          (mkFlashcard "two" "2"))). }
  assert (H2 : destructive (step (DeleteClick 1 true) st) (DragEnd 0)).
  { by apply (destructive_reorder _ 0
                (render_card (initial_page empty_env) 0 (mkFlashcard "one" "1"))). }
  destruct (undo_single_slot st (DeleteClick 1 true) (DragEnd 0) H1 H2)
    as (_ & Hc & _).
  etransitivity; [exact Hc|]. reflexivity.
Defined.

End Snapshot.

(** ** Batch delete *)

Section BatchDelete.

Context {A : Type}.
Implicit Types (l pre : list A) (keep : nat → bool).

Lemma filter_index_from_prefix keep pre l :
  JS.filter_index_from keep (length pre) l
  = omap (fun i => (pre ++ l) !! i) (List.filter keep (seq (length pre) (length l))).
Proof.
  revert pre. induction l as [|x l IH]; intros pre; [done|].
  cbn [JS.filter_index_from length seq List.filter].
  specialize (IH (pre ++ [x])).
  rewrite length_app, Nat.add_1_r, <- app_assoc in IH. cbn [app] in IH.
  destruct (keep (length pre)).
  - cbn [omap list_omap]. rewrite list_lookup_middle by done. by rewrite IH.
  - exact IH.
Qed.

Lemma filter_index_spec keep l :
  JS.filter_index keep l
  = omap (fun i => l !! i) (List.filter keep (seq 0 (length l))).
Proof. apply (filter_index_from_prefix keep []). Qed.

Lemma filter_index_from_sublist keep k l :
  sublist (JS.filter_index_from keep k l) l.
Proof.
  revert k. induction l as [|x l IH]; intros k; [constructor|].
  simpl. destruct (keep k); constructor; apply IH.
Qed.

End BatchDelete.

Section BatchDeleteStep.

Lemma deleteSelected_confirmed st :
  selectedCards st ≠ ∅ →
  step (DeleteSelectedClick true) st
  = displayFlashcards
      (JS.filter_index (fun i => negb (bool_decide (i ∈ selectedCards st)))
         (currentFlashcards st))
      (set_env
         (saveFlashcards
            (JS.filter_index (fun i => negb (bool_decide (i ∈ selectedCards st)))
               (currentFlashcards st)) (env st))
         (set_selection ∅ (set_mode false (set_previous (Some (currentFlashcards st)) st)))).
Proof.
  intros H. cbn [step]. unfold deleteSelectedButton_click.
  rewrite bool_decide_eq_false_2 by (by rewrite selection_size_zero).
  by rewrite savePreviousState_eq.
Qed.

(** C8.  A confirmed batch delete of a non-empty selection leaves the
    list with exactly the positions of the selection left out, the other
    cards in their order; multi-select mode is then off and the selection
    empty.  The list before is in the undo slot. *)
Theorem batch_delete_exact st :
  selectedCards st ≠ ∅ →
  let st' := step (DeleteSelectedClick true) st in
  currentFlashcards st'
  = Spec.without_indices (selectedCards st) (currentFlashcards st) ∧
  sublist (currentFlashcards st') (currentFlashcards st) ∧
  isMultiSelectMode st' = false ∧
  selectedCards st' = ∅ ∧
  previousState st' = Some (currentFlashcards st).
Proof.
  intros H st'. subst st'. rewrite (deleteSelected_confirmed st H).
  rewrite displayFlashcards_cards, displayFlashcards_mode,
    displayFlashcards_selection, displayFlashcards_previous.
  repeat split.
  - apply filter_index_spec.
  - apply filter_index_from_sublist.
Qed.

Lemma batch_delete_exact_witness :
  currentFlashcards
    (run [SelectClick; CardClick 1; CardClick 3; DeleteSelectedClick true]
       (boot (Some four_cards) empty_env))
  = [mkFlashcard "one" "1"; mkFlashcard "three" "3"].
Proof.
  pose (st := run [SelectClick; CardClick 1; CardClick 3] (boot (Some four_cards) empty_env)).
  assert (Hsel : selectedCards st ≠ ∅).
  { intros Hempty. assert (H1 : 1 ∈ selectedCards st) by (by vm_compute).
    rewrite Hempty in H1. by apply not_elem_of_empty in H1. }
  destruct (batch_delete_exact st Hsel) as (Hc & _).
  etransitivity; [exact Hc|]. reflexivity.
Defined.

(** The example of the specification: positions 1 and 3 of four cards. *)
Example batch_delete_one_three :
  Spec.without_indices {[1; 3]} four_cards
  = [mkFlashcard "one" "1"; mkFlashcard "three" "3"].
Proof. reflexivity. Qed.

End BatchDeleteStep.

(** ** Editing *)

Section Edit.

(** C9.  Ending an edit (by the Save button, by Enter, or by leaving the
    field) whose trimmed term and trimmed definition are those of the
    stored card leaves the undo slot as it was, makes no call to storage
    (the whole environment is unchanged), and leaves the list as it was. *)
Theorem edit_without_change st pos el current ev :
  container st !! pos = Some el → is_editing el = true →
  currentFlashcards st !! data_index el = Some current →
  JS.trim (term_text el) = term current →
  JS.trim (definition_text el) = definition current →
  saves_edit pos ev →
  previousState (step ev st) = previousState st ∧
  env (step ev st) = env st ∧
  currentFlashcards (step ev st) = currentFlashcards st.
Proof.
  intros Hel Hed Hcur Ht Hd Hev.
  destruct (saves_edit_step st pos el ev Hel Hed Hev) as (-> & -> & ->).
  by rewrite (saveAndEndEditing_unchanged st pos el current).
Qed.

Lemma edit_without_change_witness :
  let st := run [DeleteClick 3 true; EditClick 0; FieldInput 0 TermField "  one "]
              (boot (Some four_cards) empty_env) in
  previousState (step (FieldKeydown 0 Enter) st) = previousState st ∧
  env (step (FieldKeydown 0 Enter) st) = env st ∧
  currentFlashcards (step (FieldKeydown 0 Enter) st) = currentFlashcards st.
Proof.
  intros st.
  apply (edit_without_change st 0
           (mkCardEl 0 (mkFlashcard "one" "1") "  one " "1" true
              (Some (mkFlashcard "one" "1")) false false false false false true)
           (mkFlashcard "one" "1")).
  - reflexivity.
  - reflexivity.
  - reflexivity.
  - reflexivity.
  - reflexivity.
  - constructor.
Defined.

(** An edit that does change the card takes the snapshot and writes. *)
Example edit_with_change :
  let st := run [EditClick 0; FieldInput 0 TermField "uno"]
              (boot (Some four_cards) empty_env) in
  previousState (step (FieldBlur 0) st) = Some four_cards ∧
  currentFlashcards (step (FieldBlur 0) st) !! 0 = Some (mkFlashcard "uno" "1") ∧
  length (ls_calls (env (step (FieldBlur 0) st))) = 1.
Proof. repeat split; reflexivity. Qed.

End Edit.

(** ** Reordering *)

Section Reorder.

Lemma omap_compose {A B C} (f : B → option C) (g : A → B) (l : list A) :
  omap (fun x => f (g x)) l = omap f (map g l).
Proof.
  induction l as [|x l IH]; [done|].
  simpl. destruct (f (g x)); [f_equal|]; exact IH.
Qed.

Lemma omap_lookup_seq_prefix {A} (pre l : list A) :
  omap (fun i => (pre ++ l) !! i) (seq (length pre) (length l)) = l.
Proof.
  revert pre. induction l as [|x l IH]; intros pre; [done|].
  cbn [length seq omap list_omap]. rewrite list_lookup_middle by done.
  specialize (IH (pre ++ [x])).
  rewrite length_app, Nat.add_1_r, <- app_assoc in IH. cbn [app] in IH.
  by rewrite IH.
Qed.

Lemma omap_lookup_seq {A} (l : list A) :
  omap (fun i => l !! i) (seq 0 (length l)) = l.
Proof. apply (omap_lookup_seq_prefix [] l). Qed.

Lemma data_index_alter_dragging b pos els :
  map data_index (alter (set_dragging b) pos els) = map data_index els.
Proof.
  revert pos. induction els as [|el els IH]; intros [|pos]; simpl; try done.
  f_equal. apply IH.
Qed.

Lemma updateOrderAndSave_cards st :
  currentFlashcards (updateOrderAndSave st)
  = omap (fun i => currentFlashcards st !! i) (map data_index (container st)).
Proof.
  unfold updateOrderAndSave. rewrite savePreviousState_eq.
  cbn [currentFlashcards set_env applySearchFilter set_container].
  rewrite displayFlashcards_cards.
  cbn [currentFlashcards container set_previous].
  apply (omap_compose (fun i => currentFlashcards st !! i) data_index).
Qed.

Lemma updateOrderAndSave_calls st :
  ls_calls (env (updateOrderAndSave st))
  = ls_calls (env st)
    ++ [SetItem FLASHCARDS_LOCAL_STORAGE_KEY
          (stringify (currentFlashcards (updateOrderAndSave st)))].
Proof.
  rewrite updateOrderAndSave_cards.
  unfold updateOrderAndSave. rewrite savePreviousState_eq.
  cbn [env set_env]. rewrite saveFlashcards_calls.
  cbn [env applySearchFilter set_container]. rewrite displayFlashcards_env.
  cbn [env currentFlashcards container set_previous].
  by rewrite (omap_compose (fun i => currentFlashcards st !! i) data_index).
Qed.

(** While a card is being dragged the list, the undo slot and the
    environment stay as they are: the list found at [dragend] is the list
    from before the drag. *)
Lemma drag_moves_frame st pos after :
  (currentFlashcards (step (DragStart pos) st) = currentFlashcards st ∧
   previousState (step (DragStart pos) st) = previousState st ∧
   env (step (DragStart pos) st) = env st) ∧
  (currentFlashcards (step (DragOver after) st) = currentFlashcards st ∧
   previousState (step (DragOver after) st) = previousState st ∧
   env (step (DragOver after) st) = env st).
Proof.
  split; cbn [step].
  - unfold card_dragstart. destruct (container st !! pos) as [el|]; [|done].
    by destruct (draggable el).
  - unfold container_dragover. destruct (list_find _ _) as [[p d]|]; [|done].
    destruct after as [a|]; [|done].
    destruct (container st !! a) as [target|]; [|done].
    by destruct (_ || _).
Qed.

(** C10.  The end of a drag always commits: the list found goes into the
    undo slot, replacing whatever was there, and storage is asked to save
    the list that results.  This is so also when the cards stand in their
    original order, in which case the resulting list is the list found. *)
Theorem dragend_always_commits st pos el :
  container st !! pos = Some el → draggable el = true →
  let st' := step (DragEnd pos) st in
  previousState st' = Some (currentFlashcards st) ∧
  ls_calls (env st')
  = ls_calls (env st)
    ++ [SetItem FLASHCARDS_LOCAL_STORAGE_KEY (stringify (currentFlashcards st'))] ∧
  (map data_index (container st) = seq 0 (length (currentFlashcards st)) →
   currentFlashcards st' = currentFlashcards st).
Proof.
  intros Hel Hdr st'. subst st'. cbn [step]. unfold card_dragend.
  rewrite Hel, Hdr. split; [|split].
  - by rewrite updateOrderAndSave_previous.
  - by rewrite updateOrderAndSave_calls.
  - intros Horder. rewrite updateOrderAndSave_cards.
    cbn [container currentFlashcards set_container].
    rewrite data_index_alter_dragging, Horder. apply omap_lookup_seq.
Qed.

(** A drag that moves nothing, after a delete: the list stays, the
    snapshot of the delete is gone, and a second write has been made. *)
Lemma dragend_always_commits_witness :
  let st := run [DeleteClick 1 true; DragStart 0] (boot (Some four_cards) empty_env) in
  previousState st = Some four_cards ∧
  previousState (step (DragEnd 0) st) = Some (currentFlashcards st) ∧
  currentFlashcards (step (DragEnd 0) st) = currentFlashcards st ∧
  length (ls_calls (env (step (DragEnd 0) st))) = 2.
Proof.
  intros st.
  destruct (dragend_always_commits st 0
              (mkCardEl 0 (mkFlashcard "one" "1") "one" "1" false None
                 false false false true false true) eq_refl eq_refl)
    as (Hp & Hc & Hsame).
  split; [reflexivity|]. split; [exact Hp|]. split; [by apply Hsame|].
  rewrite Hc. reflexivity.
Defined.

End Reorder.

(** ** The page invariant *)

Section Invariant.

Lemma inv_same st st' :
  isMultiSelectMode st' = isMultiSelectMode st →
  selectedCards st' = selectedCards st →
  length (currentFlashcards st') = length (currentFlashcards st) →
  container st' = container st →
  page_invariant st → page_invariant st'.
Proof.
  intros Hm Hs Hl Hc [H1 H2]. unfold page_invariant, rendered_ok in *.
  rewrite Hm, Hs, Hl, Hc. done.
Qed.

Lemma inv_alter st f pos :
  (∀ el, draggable (f el) = draggable el) →
  (∀ el, data_index (f el) = data_index el) →
  page_invariant st →
  page_invariant (set_container (alter f pos (container st)) st).
Proof.
  intros Hd Hi [H1 H2]. split; [exact H1|].
  cbn [container set_container]. apply Forall_alter; [exact H2|].
  intros el _ [Hel1 Hel2]. unfold rendered_ok in *.
  cbn [isMultiSelectMode currentFlashcards set_container].
  by rewrite Hd, Hi.
Qed.

Lemma inv_no_cards st :
  (isMultiSelectMode st = false → selectedCards st = ∅) →
  page_invariant (set_container [] st).
Proof. intros H. split; [exact H|]. constructor. Qed.

Lemma inv_display l st :
  (isMultiSelectMode st = false → selectedCards st = ∅) →
  page_invariant (displayFlashcards l st).
Proof.
  intros H. split.
  - by rewrite displayFlashcards_mode, displayFlashcards_selection.
  - rewrite displayFlashcards_container. apply Forall_lookup.
    intros i el Hi. apply list_lookup_imap_Some in Hi as (card & Hcard & ->).
    split.
    + by rewrite displayFlashcards_mode.
    + rewrite displayFlashcards_cards. cbn [data_index render_card].
      by apply lookup_lt_Some in Hcard.
Qed.

Lemma filter_loop_Forall (P : CardEl → Prop) words k cards els :
  (∀ b el, P el → P (set_hidden b el)) →
  Forall P els → Forall P (filter_loop words k cards els).
Proof.
  intros Hhid. revert k els. induction cards as [|card cards IH]; intros k els H; [done|].
  cbn [filter_loop]. apply IH. destruct (els !! k); [|done].
  apply Forall_alter; [done|]. intros el _. apply Hhid.
Qed.

Lemma inv_filter st : page_invariant st → page_invariant (applySearchFilter st).
Proof.
  intros [H1 H2]. split; [exact H1|].
  unfold applySearchFilter. cbn [container set_container].
  apply filter_loop_Forall; [|exact H2]. by intros b el.
Qed.

Lemma inv_toggle index st :
  isMultiSelectMode st = true →
  page_invariant st → page_invariant (toggleCardSelection index st).
Proof.
  intros Hm [H1 H2]. unfold toggleCardSelection.
  destruct (container st !! index); [|done].
  case_bool_decide; (split; [cbn; by rewrite Hm|]);
    cbn [container set_container]; (apply Forall_alter; [exact H2|]);
    by intros el _.
Qed.

Lemma inv_flip pos st : page_invariant st → page_invariant (flipCard pos st).
Proof.
  intros H. unfold flipCard. destruct (container st !! pos) as [el|]; [|done].
  destruct (is_editing el); [done|]. by apply inv_alter.
Qed.

Lemma inv_card_click pos st : page_invariant st → page_invariant (card_click pos st).
Proof.
  intros H. unfold card_click. destruct (container st !! pos) as [el|]; [|done].
  destruct (isMultiSelectMode st) eqn:E; [by apply inv_toggle|by apply inv_flip].
Qed.

Lemma inv_card_keydown pos key st :
  page_invariant st → page_invariant (card_keydown pos key st).
Proof.
  intros H. unfold card_keydown. destruct (container st !! pos) as [el|]; [|done].
  destruct key; try done; destruct (is_editing el); try done;
    (destruct (isMultiSelectMode st) eqn:E; [by apply inv_toggle|by apply inv_flip]).
Qed.

Lemma inv_exitEditMode pos st : page_invariant st → page_invariant (exitEditMode pos st).
Proof. intros H. by apply inv_alter. Qed.

Lemma inv_saveAndEndEditing pos st :
  page_invariant st → page_invariant (saveAndEndEditing pos st).
Proof.
  intros H. unfold saveAndEndEditing.
  destruct (container st !! pos) as [el|]; [|done].
  destruct (is_editing el); cbn [negb]; [|done].
  destruct (currentFlashcards st !! data_index el) as [current|]; [|done].
  apply inv_exitEditMode.
  destruct (_ || _); [|done].
  eapply inv_same; [..|exact H]; try done.
  cbn [currentFlashcards set_env set_cards savePreviousState set_previous].
  apply length_insert.
Qed.

Lemma inv_cancelEditing pos st :
  page_invariant st → page_invariant (cancelEditing pos st).
Proof.
  intros H. unfold cancelEditing.
  destruct (container st !! pos) as [el|]; [|done].
  destruct (originalCardState el); [|done].
  apply inv_exitEditMode. by apply inv_alter.
Qed.

Lemma inv_updateOrderAndSave st :
  page_invariant st → page_invariant (updateOrderAndSave st).
Proof.
  intros [H1 H2]. unfold updateOrderAndSave.
  eapply inv_same; [..|apply inv_filter, inv_display]; try done.
Qed.

Lemma inv_dragover after st :
  page_invariant st → page_invariant (container_dragover after st).
Proof.
  intros [H1 H2]. unfold container_dragover.
  destruct (list_find _ _) as [[p d]|] eqn:Efind; [|done].
  apply list_find_Some in Efind as (Hd & _ & _).
  assert (Hdok : rendered_ok st d) by (by eapply Forall_lookup_1).
  assert (Hothers : Forall (rendered_ok st) (delete p (container st)))
    by (by apply Forall_delete).
  destruct after as [a|].
  - destruct (container st !! a) as [target|]; [|done].
    destruct (_ || _); [done|].
    split; [exact H1|]. cbn [container set_container].
    apply Forall_app. split; [by apply Forall_take|].
    constructor; [done|by apply Forall_drop].
  - split; [exact H1|]. cbn [container set_container].
    apply Forall_app. split; [done|by constructor].
Qed.

(** Every event keeps the invariant. *)
Lemma step_invariant ev st : page_invariant st → page_invariant (step ev st).
Proof.
  intros H. pose proof H as [H1 H2]. destruct ev; cbn [step].
  - unfold generate_click. destruct (generateDisabled st); [done|].
    destruct (negb _); by apply inv_no_cards.
  - unfold generate_resolved. destruct (negb (generateDisabled st)); [done|].
    eapply inv_same; [reflexivity..|].
    destruct (JS.truthy responseText); [|by eapply inv_same; [..|exact H]].
    destruct (0 <? _); [|by eapply inv_same; [..|exact H]].
    eapply inv_same; [..|apply (inv_display (parse_response responseText) (set_error "" st))];
      done.
  - unfold generate_rejected. destruct (negb (generateDisabled st)); [done|].
    eapply inv_same; [reflexivity..|]. by apply inv_no_cards.
  - apply inv_filter. by eapply inv_same; [..|exact H].
  - unfold undoButton_click. destruct (previousState st) as [previous|]; [|done].
    eapply inv_same; [reflexivity..|].
    eapply inv_same; [reflexivity..|].
    apply inv_filter.
    eapply inv_same; [..|apply (inv_display previous st)]; done.
  - unfold undo_message_timeout. case_decide; [|done].
    by eapply inv_same; [..|exact H].
  - unfold selectButton_click. apply inv_display.
    destruct (isMultiSelectMode st); cbn; [done|]. by intros.
  - unfold deleteSelectedButton_click. case_bool_decide; [done|].
    destruct confirmed; [|done].
    eapply inv_same; [..|apply inv_display]; try done.
  - by apply inv_card_click.
  - by apply inv_card_keydown.
  - unfold editButton_click. destruct (container st !! pos) as [el|]; [|done].
    destruct (is_editing el); [by apply inv_saveAndEndEditing|by apply inv_alter].
  - unfold field_input. destruct (container st !! pos) as [el|]; [|done].
    destruct (is_editing el); [|done]. destruct field; by apply inv_alter.
  - unfold field_keydown. apply inv_card_keydown.
    destruct key; try done; [by apply inv_saveAndEndEditing|by apply inv_cancelEditing].
  - by apply inv_saveAndEndEditing.
  - unfold deleteButton_click. destruct (container st !! pos) as [el|]; [|done].
    destruct confirmed; [|done].
    eapply inv_same; [..|apply inv_display]; try done.
  - unfold card_dragstart. destruct (container st !! pos) as [el|]; [|done].
    destruct (draggable el); [|done]. by apply inv_alter.
  - by apply inv_dragover.
  - unfold card_dragend. destruct (container st !! pos) as [el|]; [|done].
    destruct (draggable el); [|done].
    apply inv_updateOrderAndSave. by apply inv_alter.
  - by eapply inv_same; [..|exact H].
Qed.

Lemma boot_invariant initialFlashcards e : page_invariant (boot initialFlashcards e).
Proof.
  unfold boot. destruct initialFlashcards as [l|].
  - destruct (0 <? length l); [by apply inv_display|]. split; [done|constructor].
  - split; [done|constructor].
Qed.

Lemma reachable_invariant initialFlashcards e st :
  reachable (boot initialFlashcards e) st → page_invariant st.
Proof.
  induction 1 as [|st ev _ IH]; [apply boot_invariant|by apply step_invariant].
Qed.

(** The index every rendered card carries is an index of the list, so
    [updateOrderAndSave] never reads [undefined]. *)
Lemma rendered_in_range initialFlashcards e st :
  reachable (boot initialFlashcards e) st →
  Forall (fun el => is_Some (currentFlashcards st !! data_index el)) (container st).
Proof.
  intros [_ H]%reachable_invariant. eapply Forall_impl; [exact H|].
  intros el [_ Hlt]. by apply lookup_lt_is_Some.
Qed.

End Invariant.

(** ** The selection *)

Section Selection.

Lemma reachable_run init evs st :
  reachable init st → reachable init (run evs st).
Proof.
  revert st. induction evs as [|ev evs IH]; intros st H; [done|].
  apply IH. by constructor.
Qed.

(** Leaving multi-select mode empties the selection. *)
Lemma select_off_clears st :
  isMultiSelectMode st = true →
  isMultiSelectMode (step SelectClick st) = false ∧
  selectedCards (step SelectClick st) = ∅.
Proof.
  intros H. cbn [step]. unfold selectButton_click.
  rewrite displayFlashcards_mode, displayFlashcards_selection.
  cbn [isMultiSelectMode set_mode]. by rewrite H.
Qed.

(** The end of a drag finds and leaves the selection empty: a card can
    be dragged only outside multi-select mode, where nothing is selected. *)
Lemma reorder_selection_empty initialFlashcards e st pos el :
  reachable (boot initialFlashcards e) st →
  container st !! pos = Some el → draggable el = true →
  selectedCards (step (DragEnd pos) st) = ∅.
Proof.
  intros [H1 H2]%reachable_invariant Hel Hdr.
  assert (Hmode : isMultiSelectMode st = false).
  { destruct (Forall_lookup_1 _ _ _ _ H2 Hel) as [Hd _].
    rewrite Hdr in Hd. by destruct (isMultiSelectMode st). }
  cbn [step]. unfold card_dragend. rewrite Hel, Hdr.
  unfold updateOrderAndSave.
  cbn [selectedCards set_env applySearchFilter set_container].
  rewrite displayFlashcards_selection. by apply H1.
Qed.

(** A single delete does not touch the selection. *)
Lemma single_delete_selection st pos confirmed :
  selectedCards (step (DeleteClick pos confirmed) st) = selectedCards st ∧
  isMultiSelectMode (step (DeleteClick pos confirmed) st) = isMultiSelectMode st.
Proof.
  cbn [step]. unfold deleteButton_click.
  destruct (container st !! pos) as [el|]; [|done].
  destruct confirmed; [|done].
  by rewrite displayFlashcards_selection, displayFlashcards_mode.
Qed.

(** C1.  The selection is to be empty after any single delete.  It is
    not: with four cards shown, entering multi-select mode, selecting the
    card at position 1 and deleting the card at position 0 through its
    own delete button leaves position 1 selected.  The list is then
    two, three, four, and the card marked as selected is three, not the
    card two that was chosen. *)
Theorem single_delete_keeps_selection :
  let init := boot (Some four_cards) empty_env in
  let st := run [SelectClick; CardClick 1] init in
  let st' := step (DeleteClick 0 true) st in
  reachable init st' ∧
  selectedCards st = {[1]} ∧
  currentFlashcards st'
  = [mkFlashcard "two" "2"; mkFlashcard "three" "3"; mkFlashcard "four" "4"] ∧
  selectedCards st' = {[1]} ∧
  selectedCards st' ≠ ∅ ∧
  map is_selected (container st') = [false; true; false].
Proof.
  intros init st st'. split; [|split; [|split; [|split; [|split]]]].
  - subst st'. constructor. subst st. apply reachable_run. constructor.
  - reflexivity.
  - reflexivity.
  - reflexivity.
  - intros H. assert (H1 : 1 ∈ selectedCards st') by (by vm_compute).
    rewrite H in H1. by apply not_elem_of_empty in H1.
  - reflexivity.
Qed.

End Selection.

(** * Further properties of the handlers *)

(** ** What undo gives back *)

Section UndoRestores.

(** X1.  One undo right after a destructive operation brings back the list
    that operation found, and asks storage to save it. *)
Theorem undo_restores st ev :
  destructive st ev →
  currentFlashcards (step UndoClick (step ev st)) = currentFlashcards st ∧
  previousState (step UndoClick (step ev st)) = None ∧
  (ls_quota_exceeded (env (step ev st)) = false →
   getItem FLASHCARDS_LOCAL_STORAGE_KEY (env (step UndoClick (step ev st)))
   = Some (stringify (currentFlashcards st))).
Proof.
  intros H. pose proof (destructive_snapshot _ _ H) as Hsnap.
  destruct (undo_with_snapshot _ _ Hsnap) as (Hc & Hp & _ & Hs). done.
Qed.

Lemma undo_restores_witness :
  currentFlashcards
    (run [DeleteClick 2 true; UndoClick] (boot (Some four_cards) empty_env))
  = four_cards.
Proof.
  pose (st := boot (Some four_cards) empty_env).
  assert (H : destructive st (DeleteClick 2 true)).
  { by apply (destructive_delete st 2 (render_card (initial_page empty_env) 2
                                         (mkFlashcard "three" "3"))). }
  destruct (undo_restores st (DeleteClick 2 true) H) as (Hc & _).
  exact Hc.
Defined.

Lemma saveAndEndEditing_list_or_snapshot pos st :
  (currentFlashcards (saveAndEndEditing pos st) = currentFlashcards st ∧
   previousState (saveAndEndEditing pos st) = previousState st)
  ∨ previousState (saveAndEndEditing pos st) = Some (currentFlashcards st).
Proof.
  unfold saveAndEndEditing.
  destruct (container st !! pos) as [el|]; [|by left].
  destruct (is_editing el); cbn [negb]; [|by left].
  destruct (currentFlashcards st !! data_index el) as [current|]; [|by left].
  destruct (_ || _); [|by left].
  right. by rewrite savePreviousState_eq.
Qed.

Lemma cancelEditing_frame pos st :
  currentFlashcards (cancelEditing pos st) = currentFlashcards st ∧
  previousState (cancelEditing pos st) = previousState st ∧
  env (cancelEditing pos st) = env st.
Proof.
  unfold cancelEditing. destruct (container st !! pos) as [el|]; [|done].
  by destruct (originalCardState el).
Qed.

(** X2.  Whatever the event, the list afterwards is the list before, or the
    list before is in the undo slot; the only exceptions are undo itself
    and the arrival of a generated response.  So every change a user
    makes to the cards can be undone. *)
Theorem list_changes_are_snapshotted ev st :
  currentFlashcards (step ev st) = currentFlashcards st
  ∨ previousState (step ev st) = Some (currentFlashcards st)
  ∨ ev = UndoClick
  ∨ ∃ responseText, ev = GenerateResolved responseText.
Proof.
  destruct ev; cbn [step]; try (by right; right; left); try (by right; right; right; eexists).
  - left. unfold generate_click. destruct (generateDisabled st); [done|].
    by destruct (negb _).
  - left. unfold generate_rejected. by destruct (negb _).
  - by left.
  - left. unfold undo_message_timeout. by case_decide.
  - left. unfold selectButton_click. rewrite displayFlashcards_cards.
    cbn [isMultiSelectMode set_mode]. by destruct (isMultiSelectMode st).
  - unfold deleteSelectedButton_click. case_bool_decide; [by left|].
    destruct confirmed; [|by left]. right; left.
    by rewrite displayFlashcards_previous, savePreviousState_eq.
  - left. unfold card_click. destruct (container st !! pos) as [el|]; [|done].
    destruct (isMultiSelectMode st);
      [exact (proj1 (toggleCardSelection_frame _ _))|exact (proj1 (flipCard_frame _ _))].
  - left. exact (proj1 (card_keydown_frame _ _ _)).
  - unfold editButton_click. destruct (container st !! pos) as [el|]; [|by left].
    destruct (is_editing el); [|by left].
    destruct (saveAndEndEditing_list_or_snapshot pos st) as [[H _]|H]; [by left|by right; left].
  - left. unfold field_input. destruct (container st !! pos) as [el|]; [|done].
    destruct (is_editing el); [|done]. by destruct field.
  - unfold field_keydown.
    destruct (card_keydown_frame pos key
                match key with
                | Enter => saveAndEndEditing pos st
                | Escape => cancelEditing pos st
                | _ => st
                end) as (-> & -> & _).
    destruct key; try by left.
    + destruct (saveAndEndEditing_list_or_snapshot pos st) as [[H _]|H];
        [by left|by right; left].
    + left. exact (proj1 (cancelEditing_frame _ _)).
  - destruct (saveAndEndEditing_list_or_snapshot pos st) as [[H _]|H];
      [by left|by right; left].
  - unfold deleteButton_click. destruct (container st !! pos) as [el|]; [|by left].
    destruct confirmed; [|by left]. right; left.
    by rewrite displayFlashcards_previous, savePreviousState_eq.
  - left. exact (proj1 (proj1 (drag_moves_frame st pos None))).
  - left. exact (proj1 (proj2 (drag_moves_frame st 0 after))).
  - unfold card_dragend. destruct (container st !! pos) as [el|]; [|by left].
    destruct (draggable el); [|by left]. right; left.
    by rewrite updateOrderAndSave_previous.
  - by left.
Qed.

End UndoRestores.

(** ** Single delete *)

Section SingleDelete.

Lemma filter_index_from_all {A} (keep : nat → bool) k (l : list A) :
  (∀ i, k ≤ i → keep i = true) → JS.filter_index_from keep k l = l.
Proof.
  revert k. induction l as [|x l IH]; intros k H; [done|].
  simpl. rewrite H by lia. f_equal. apply IH. intros i Hi. apply H. lia.
Qed.

Lemma filter_index_from_delete {A} k j (l : list A) :
  JS.filter_index_from (fun i => bool_decide (i ≠ k + j)) k l = delete j l.
Proof.
  revert k j. induction l as [|x l IH]; intros k j; [done|].
  cbn [JS.filter_index_from]. destruct j as [|j].
  - rewrite bool_decide_eq_false_2 by lia. cbn [delete list_delete].
    apply filter_index_from_all. intros i Hi. apply bool_decide_eq_true. lia.
  - rewrite bool_decide_eq_true_2 by lia. cbn [delete list_delete]. f_equal.
    replace (k + S j) with (S k + j) by lia. apply IH.
Qed.

Lemma filter_index_delete {A} j (l : list A) :
  JS.filter_index (fun i => bool_decide (i ≠ j)) l = delete j l.
Proof. apply (filter_index_from_delete 0 j l). Qed.

(** X3.  A confirmed click on a card's delete button removes the card at that
    card's index and no other, puts the list it found into the undo slot,
    asks storage to save the new list and renders it afresh, every card
    shown; a declined confirmation changes nothing. *)
Theorem single_delete_exact st pos el :
  container st !! pos = Some el →
  let st' := step (DeleteClick pos true) st in
  currentFlashcards st' = delete (data_index el) (currentFlashcards st) ∧
  previousState st' = Some (currentFlashcards st) ∧
  ls_calls (env st')
  = ls_calls (env st)
    ++ [SetItem FLASHCARDS_LOCAL_STORAGE_KEY (stringify (currentFlashcards st'))] ∧
  map data_index (container st') = seq 0 (length (currentFlashcards st')) ∧
  Forall (fun el' => hidden el' = false ∧ is_editing el' = false) (container st') ∧
  step (DeleteClick pos false) st = st.
Proof.
  intros Hel st'. subst st'. cbn [step]. unfold deleteButton_click. rewrite Hel.
  rewrite displayFlashcards_cards, displayFlashcards_previous, displayFlashcards_env,
    displayFlashcards_container, savePreviousState_eq.
  cbn [currentFlashcards previousState env set_env set_previous].
  rewrite filter_index_delete, saveFlashcards_calls.
  repeat split.
  - apply list_eq. intros i. rewrite list_lookup_fmap, list_lookup_imap.
    destruct (delete (data_index el) (currentFlashcards st) !! i) as [card|] eqn:E.
    + cbn. apply lookup_lt_Some in E. by rewrite lookup_seq_lt.
    + cbn. apply lookup_ge_None in E. by rewrite lookup_seq_ge.
  - apply Forall_lookup. intros i el' Hi.
    apply list_lookup_imap_Some in Hi as (card & _ & ->). done.
Qed.

Lemma single_delete_exact_witness :
  currentFlashcards (step (DeleteClick 1 true) (boot (Some four_cards) empty_env))
  = [mkFlashcard "one" "1"; mkFlashcard "three" "3"; mkFlashcard "four" "4"].
Proof.
  destruct (single_delete_exact (boot (Some four_cards) empty_env) 1
              (render_card (initial_page empty_env) 1 (mkFlashcard "two" "2"))
              eq_refl) as (Hc & _).
  exact Hc.
Defined.

End SingleDelete.

(** ** Editing in place *)

Section EditInPlace.

Lemma saveAndEndEditing_calls st pos el current :
  container st !! pos = Some el → is_editing el = true →
  currentFlashcards st !! data_index el = Some current →
  term current ≠ JS.trim (term_text el)
  ∨ definition current ≠ JS.trim (definition_text el) →
  ls_calls (env (saveAndEndEditing pos st))
  = ls_calls (env st)
    ++ [SetItem FLASHCARDS_LOCAL_STORAGE_KEY
          (stringify (currentFlashcards (saveAndEndEditing pos st)))].
Proof.
  intros Hel Hed Hcur Hch.
  destruct (saveAndEndEditing_changed st pos el current Hel Hed Hcur Hch) as [_ ->].
  unfold saveAndEndEditing. rewrite Hel, Hed, Hcur. cbn [negb].
  assert (bool_decide (term current ≠ JS.trim (term_text el))
          || bool_decide (definition current ≠ JS.trim (definition_text el)) = true) as ->.
  { apply orb_true_iff. destruct Hch; [left|right]; by apply bool_decide_eq_true. }
  rewrite savePreviousState_eq.
  cbn [env exitEditMode set_container set_env set_cards currentFlashcards set_previous].
  by rewrite saveFlashcards_calls.
Qed.

(** X4.  Ending an edit that changed the card stores, at the card's index,
    the card made of the two texts trimmed (empty ones included: there
    is no check), leaves every other card and the length of the list as
    they were, puts the list it found in the undo slot and asks storage
    to save the new list. *)
Theorem edit_stores_trimmed st pos el current ev :
  container st !! pos = Some el → is_editing el = true →
  currentFlashcards st !! data_index el = Some current →
  term current ≠ JS.trim (term_text el)
  ∨ definition current ≠ JS.trim (definition_text el) →
  saves_edit pos ev →
  let st' := step ev st in
  currentFlashcards st' !! data_index el
  = Some (mkFlashcard (JS.trim (term_text el)) (JS.trim (definition_text el))) ∧
  (∀ j, j ≠ data_index el → currentFlashcards st' !! j = currentFlashcards st !! j) ∧
  length (currentFlashcards st') = length (currentFlashcards st) ∧
  previousState st' = Some (currentFlashcards st) ∧
  ls_calls (env st')
  = ls_calls (env st)
    ++ [SetItem FLASHCARDS_LOCAL_STORAGE_KEY (stringify (currentFlashcards st'))].
Proof.
  intros Hel Hed Hcur Hch Hev st'. subst st'.
  destruct (saves_edit_step st pos el ev Hel Hed Hev) as (-> & -> & ->).
  pose proof (saveAndEndEditing_calls st pos el current Hel Hed Hcur Hch) as Hcalls.
  destruct (saveAndEndEditing_changed st pos el current Hel Hed Hcur Hch) as [Hp Hc].
  rewrite Hcalls, Hp, Hc. repeat split.
  - apply list_lookup_insert_eq. by apply lookup_lt_Some in Hcur.
  - intros j Hj. by apply list_lookup_insert_ne.
  - apply length_insert.
Qed.

Lemma edit_stores_trimmed_witness :
  let st := run [EditClick 0; FieldInput 0 TermField "  uno "]
              (boot (Some four_cards) empty_env) in
  currentFlashcards (step (FieldBlur 0) st) !! 0 = Some (mkFlashcard "uno" "1").
Proof.
  intros st.
  destruct (edit_stores_trimmed st 0
              (mkCardEl 0 (mkFlashcard "one" "1") "  uno " "1" true
                 (Some (mkFlashcard "one" "1")) false false false false false true)
              (mkFlashcard "one" "1") (FieldBlur 0) eq_refl eq_refl eq_refl)
    as (Hc & _).
  - left. discriminate.
  - constructor.
  - exact Hc.
Defined.

Lemma field_input_keeps_editing pos f text st st0 :
  editing_since_render pos st →
  currentFlashcards st = currentFlashcards st0 →
  previousState st = previousState st0 → env st = env st0 →
  (∀ el0, container st0 !! pos = Some el0 →
          ∃ el, container st !! pos = Some el ∧ flashcard el = flashcard el0 ∧
                data_index el = data_index el0) →
  editing_since_render pos (step (FieldInput pos f text) st) ∧
  currentFlashcards (step (FieldInput pos f text) st) = currentFlashcards st0 ∧
  previousState (step (FieldInput pos f text) st) = previousState st0 ∧
  env (step (FieldInput pos f text) st) = env st0 ∧
  (∀ el0, container st0 !! pos = Some el0 →
          ∃ el, container (step (FieldInput pos f text) st) !! pos = Some el ∧
                flashcard el = flashcard el0 ∧ data_index el = data_index el0).
Proof.
  intros (el & Hel & Hed & Ho) Hc Hp He Hsame. cbn [step]. unfold field_input.
  rewrite Hel, Hed.
  assert (Hlt : pos < length (container st)) by (by eapply lookup_lt_Some).
  unfold editing_since_render.
  destruct f; cbn [container currentFlashcards previousState env set_container];
    (split; [eexists; split; [by rewrite list_lookup_alter_eq, Hel|done]|]);
    (split; [done|split; [done|split; [done|]]]);
    intros el0 Hel0; destruct (Hsame el0 Hel0) as (el' & Hel' & Hf & Hi);
    rewrite Hel in Hel'; injection Hel' as <-;
    (eexists; split; [by rewrite list_lookup_alter_eq, Hel|done]).
Qed.

(** X5.  Starting an edit, typing anything into the two fields and pressing
    Escape puts back the texts of the card the element was rendered for
    and leaves edit mode; the list, the undo slot and the environment are
    as before the edit began. *)
Theorem escape_discards_typing st pos el0 (inputs : list (Field * string)) :
  container st !! pos = Some el0 → is_editing el0 = false →
  let typed := run (EditClick pos :: map (fun i => FieldInput pos i.1 i.2) inputs) st in
  let st' := step (FieldKeydown pos Escape) typed in
  (∃ el, container st' !! pos = Some el ∧
         term_text el = term (flashcard el0) ∧
         definition_text el = definition (flashcard el0) ∧
         is_editing el = false ∧ originalCardState el = None ∧
         data_index el = data_index el0) ∧
  currentFlashcards st' = currentFlashcards st ∧
  previousState st' = previousState st ∧
  env st' = env st.
Proof.
  intros Hel0 Hned typed st'.
  assert (Hinv : editing_since_render pos typed ∧
                 currentFlashcards typed = currentFlashcards st ∧
                 previousState typed = previousState st ∧ env typed = env st ∧
                 (∀ el0', container st !! pos = Some el0' →
                    ∃ el, container typed !! pos = Some el ∧
                          flashcard el = flashcard el0' ∧ data_index el = data_index el0')).
  { subst typed. cbn [run fold_left].
    set (st1 := step (EditClick pos) st).
    assert (H1 : editing_since_render pos st1 ∧
                 currentFlashcards st1 = currentFlashcards st ∧
                 previousState st1 = previousState st ∧ env st1 = env st ∧
                 (∀ el0', container st !! pos = Some el0' →
                    ∃ el, container st1 !! pos = Some el ∧
                          flashcard el = flashcard el0' ∧ data_index el = data_index el0')).
    { subst st1. cbn [step]. unfold editButton_click, editing_since_render.
      rewrite Hel0, Hned.
      cbn [container currentFlashcards previousState env set_container].
      split; [|split; [done|split; [done|split; [done|]]]].
      - eexists. split; [by rewrite list_lookup_alter_eq, Hel0|].
        cbn. split; [done|]. by destruct (flashcard el0).
      - intros el0' Hel0'. injection Hel0' as <-.
        eexists. split; [by rewrite list_lookup_alter_eq, Hel0|done]. }
    clearbody st1. revert st1 H1.
    induction inputs as [|[f text] inputs IH]; intros st1 H1; [exact H1|].
    cbn [map fold_left fst snd]. apply IH.
    destruct H1 as (He & Hc & Hp & Hv & Hs).
    by apply field_input_keeps_editing. }
  destruct Hinv as ((el & Hel & Hed & Ho) & Hc & Hp & Hv & Hs).
  destruct (Hs el0 Hel0) as (el' & Hel' & Hf & Hi).
  rewrite Hel in Hel'. injection Hel' as <-.
  subst st'. cbn [step]. unfold field_keydown.
  destruct (card_keydown_frame pos Escape (cancelEditing pos typed)) as (Hc' & Hp' & Hv').
  destruct (cancelEditing_frame pos typed) as (Hc'' & Hp'' & Hv'').
  split; [|by rewrite Hc', Hp', Hv', Hc'', Hp'', Hv''].
  assert (Hlt : pos < length (container typed)) by (by eapply lookup_lt_Some).
  assert (Hcancel : container (cancelEditing pos typed) !! pos
                    = Some (set_editing false None
                              (set_texts (term (flashcard el)) (definition (flashcard el)) el))).
  { unfold cancelEditing. rewrite Hel, Ho. unfold exitEditMode.
    cbn [container set_container].
    rewrite list_lookup_alter_eq, list_lookup_alter_eq, Hel. done. }
  unfold card_keydown. rewrite Hcancel. eexists. split; [exact Hcancel|].
  cbn. by rewrite Hf, Hi.
Qed.

Lemma escape_discards_typing_witness :
  let st' := run [EditClick 1; FieldInput 1 TermField "zwei";
                  FieldInput 1 DefinitionField "II"; FieldKeydown 1 Escape]
               (boot (Some four_cards) empty_env) in
  currentFlashcards st' = four_cards ∧ previousState st' = None.
Proof.
  intros st'.
  destruct (escape_discards_typing (boot (Some four_cards) empty_env) 1
              (render_card (initial_page empty_env) 1 (mkFlashcard "two" "2"))
              [(TermField, "zwei"); (DefinitionField, "II")] eq_refl eq_refl)
    as (_ & Hc & Hp & _).
  split; [exact Hc|exact Hp].
Defined.

End EditInPlace.

(** ** Generation *)

Section Generation.




(** X7.  A click on Generate with a blank topic sends no request: the button
    stays enabled, the list, the undo slot and the environment stay, and
    the page is emptied although the list is not; the next click on
    Select renders the list again. *)
Theorem generation_blank_topic st topicValue :
  generateDisabled st = false → JS.trim topicValue = "" →
  let st' := step (GenerateClick topicValue) st in
  generateDisabled st' = false ∧
  currentFlashcards st' = currentFlashcards st ∧
  previousState st' = previousState st ∧
  env st' = env st ∧
  container st' = [] ∧
  length (container (step SelectClick st')) = length (currentFlashcards st).
Proof.
  intros Hen Htopic st'.
  assert (Hst' : st' = set_container []
                         (set_error "Please enter a topic or some terms and definitions." st)).
  { subst st'. cbn [step]. unfold generate_click. by rewrite Hen, Htopic. }
  rewrite Hst'. repeat split; try done.
  cbn [step]. unfold selectButton_click.
  rewrite displayFlashcards_container, length_imap.
  cbn [isMultiSelectMode set_mode]. by destruct (negb _).
Qed.

Lemma generation_blank_topic_witness :
  container (step (GenerateClick "   ") (boot (Some four_cards) empty_env)) = [] ∧
  currentFlashcards (step (GenerateClick "   ") (boot (Some four_cards) empty_env))
  = four_cards.
Proof.
  destruct (generation_blank_topic (boot (Some four_cards) empty_env) "   "
              eq_refl eq_refl) as (_ & Hc & _ & _ & Hd & _).
  split; [exact Hd|exact Hc].
Defined.

End Generation.

(** ** What the page shows agrees with the list and the selection *)

Section Rendered.

Lemma map_alter_same {B} (g : CardEl → B) f i (l : list CardEl) :
  (∀ el, g (f el) = g el) → map g (alter f i l) = map g l.
Proof.
  intros H. revert i. induction l as [|el l IH]; intros [|i]; simpl; try done.
  - by rewrite H.
  - f_equal. apply IH.
Qed.

Lemma sound_same st st' :
  isMultiSelectMode st' = isMultiSelectMode st →
  selectedCards st' = selectedCards st →
  length (currentFlashcards st') = length (currentFlashcards st) →
  container st' = container st →
  rendered_sound st → rendered_sound st'.
Proof.
  intros Hm Hs Hl Hc H. unfold rendered_sound in *. by rewrite Hm, Hs, Hl, Hc.
Qed.

Lemma sound_alter st f pos :
  keeps_marks f → rendered_sound st →
  rendered_sound (set_container (alter f pos (container st)) st).
Proof.
  intros Hf (H1 & H2 & H3). unfold rendered_sound.
  cbn [container currentFlashcards isMultiSelectMode selectedCards set_container].
  rewrite (map_alter_same data_index) by (intros el; apply Hf).
  rewrite length_alter. split; [|split; [exact H2|]].
  - destruct H1 as [H1|H1]; [|by right]. left. by rewrite H1.
  - apply Forall_alter; [exact H3|]. intros el _ (Ha & Hb & Hc).
    destruct (Hf el) as (-> & -> & -> & -> & ->). done.
Qed.

Lemma sound_no_cards st : rendered_sound (set_container [] st).
Proof. split; [by left|]. split; [done|constructor]. Qed.

Lemma rendered_indices l st :
  map data_index (container (displayFlashcards l st)) = seq 0 (length l).
Proof.
  rewrite displayFlashcards_container. apply list_eq. intros i.
  rewrite list_lookup_fmap, list_lookup_imap.
  destruct (l !! i) as [card|] eqn:E; cbn.
  - apply lookup_lt_Some in E. by rewrite lookup_seq_lt.
  - apply lookup_ge_None in E. by rewrite lookup_seq_ge.
Qed.

Lemma sound_display l st : rendered_sound (displayFlashcards l st).
Proof.
  split; [|split].
  - right. by rewrite rendered_indices, displayFlashcards_cards.
  - intros _. rewrite rendered_indices, displayFlashcards_container. by rewrite length_imap.
  - rewrite displayFlashcards_container, displayFlashcards_selection.
    apply Forall_lookup. intros i el Hi.
    apply list_lookup_imap_Some in Hi as (card & _ & ->). done.
Qed.

Lemma filter_loop_map {B} (g : CardEl → B) words k cards els :
  (∀ b el, g (set_hidden b el) = g el) →
  map g (filter_loop words k cards els) = map g els.
Proof.
  intros H. revert k els. induction cards as [|card cards IH]; intros k els; [done|].
  cbn [filter_loop]. rewrite IH. destruct (els !! k); [|done].
  apply map_alter_same. intros el. apply H.
Qed.

Lemma sound_filter st : rendered_sound st → rendered_sound (applySearchFilter st).
Proof.
  intros (H1 & H2 & H3). unfold rendered_sound, applySearchFilter.
  cbn [container currentFlashcards isMultiSelectMode selectedCards set_container].
  rewrite (filter_loop_map data_index) by done.
  assert (Hlen : length (filter_loop (search_words (searchValue st)) 0
                           (currentFlashcards st) (container st))
                 = length (container st)).
  { rewrite <- (length_map data_index), (filter_loop_map data_index) by done.
    apply length_map. }
  rewrite Hlen. split; [|split; [exact H2|]].
  - destruct H1 as [H1|H1]; [|by right]. left.
    apply length_zero_iff_nil. rewrite Hlen, H1. done.
  - apply filter_loop_Forall; [|exact H3]. by intros b el.
Qed.

Lemma in_order_index (els : list CardEl) pos el :
  map data_index els = seq 0 (length els) → els !! pos = Some el → data_index el = pos.
Proof.
  intros Horder Hel.
  assert (H : map data_index els !! pos = Some (data_index el))
    by (by rewrite list_lookup_fmap, Hel).
  rewrite Horder in H. by apply lookup_seq in H as [-> _].
Qed.

Lemma sound_toggle pos el st :
  isMultiSelectMode st = true → container st !! pos = Some el →
  rendered_sound st → rendered_sound (toggleCardSelection (data_index el) st).
Proof.
  intros Hm Hel (H1 & H2 & H3).
  pose proof (in_order_index _ _ _ (H2 Hm) Hel) as Hidx.
  unfold toggleCardSelection. rewrite Hidx, Hel.
  assert (Hgoal : ∀ b S',
            (∀ j, j ≠ pos → bool_decide (j ∈ S') = bool_decide (j ∈ selectedCards st)) →
            bool_decide (pos ∈ S') = b →
            rendered_sound
              (set_container (alter (set_selected b) pos (container st))
                 (set_selection S' st))).
  { intros b S' Hother Hpos. unfold rendered_sound.
    cbn [container currentFlashcards isMultiSelectMode selectedCards
         set_container set_selection].
    rewrite (map_alter_same data_index) by done. rewrite length_alter.
    split; [|split; [exact H2|]].
    - destruct H1 as [H1|H1]; [|by right]. by rewrite H1 in Hel.
    - apply Forall_lookup. intros j el' Hj. rewrite list_lookup_alter in Hj.
      destruct (decide (pos = j)) as [<-|Hne].
      + rewrite Hel in Hj. injection Hj as <-.
        cbn [is_selected checked dragging draggable data_index set_selected].
        rewrite Hidx, Hpos.
        destruct (Forall_lookup_1 _ _ _ _ H3 Hel) as (_ & _ & Hd). done.
      + destruct (Forall_lookup_1 _ _ _ _ H3 Hj) as (Ha & Hb & Hd).
        pose proof (in_order_index _ _ _ (H2 Hm) Hj) as Hidx'.
        rewrite Hidx' in Ha |- *. rewrite Hother by done. done. }
  case_bool_decide as Hin.
  - apply Hgoal.
    + intros j Hj. apply bool_decide_ext.
      rewrite elem_of_difference, elem_of_singleton. tauto.
    + apply bool_decide_eq_false.
      rewrite elem_of_difference, elem_of_singleton. tauto.
  - apply Hgoal.
    + intros j Hj. apply bool_decide_ext.
      rewrite elem_of_union, elem_of_singleton. tauto.
    + apply bool_decide_eq_true.
      rewrite elem_of_union, elem_of_singleton. tauto.
Qed.

Lemma sound_flip pos st : rendered_sound st → rendered_sound (flipCard pos st).
Proof.
  intros H. unfold flipCard. destruct (container st !! pos) as [el|]; [|done].
  destruct (is_editing el); [done|]. by apply sound_alter.
Qed.

Lemma sound_card_click pos st :
  rendered_sound st → rendered_sound (card_click pos st).
Proof.
  intros H. unfold card_click. destruct (container st !! pos) as [el|] eqn:E; [|done].
  destruct (isMultiSelectMode st) eqn:Em;
    [by apply (sound_toggle pos)|by apply sound_flip].
Qed.

Lemma sound_card_keydown pos key st :
  rendered_sound st → rendered_sound (card_keydown pos key st).
Proof.
  intros H. unfold card_keydown. destruct (container st !! pos) as [el|] eqn:E; [|done].
  destruct key; try done; destruct (is_editing el); try done;
    (destruct (isMultiSelectMode st) eqn:Em;
     [by apply (sound_toggle pos)|by apply sound_flip]).
Qed.

Lemma sound_saveAndEndEditing pos st :
  rendered_sound st → rendered_sound (saveAndEndEditing pos st).
Proof.
  intros H. unfold saveAndEndEditing.
  destruct (container st !! pos) as [el|]; [|done].
  destruct (is_editing el); cbn [negb]; [|done].
  destruct (currentFlashcards st !! data_index el) as [current|]; [|done].
  apply sound_alter; [done|].
  destruct (_ || _); [|done].
  eapply sound_same; [..|exact H]; try done.
  cbn [currentFlashcards set_env set_cards savePreviousState set_previous].
  apply length_insert.
Qed.

Lemma sound_cancelEditing pos st :
  rendered_sound st → rendered_sound (cancelEditing pos st).
Proof.
  intros H. unfold cancelEditing.
  destruct (container st !! pos) as [el|]; [|done].
  destruct (originalCardState el); [|done].
  apply sound_alter; [done|]. by apply sound_alter.
Qed.

Lemma dragover_permutes after st :
  container (container_dragover after st) ≡ₚ container st.
Proof.
  unfold container_dragover.
  destruct (list_find _ _) as [[p d]|] eqn:Efind; [|done].
  apply list_find_Some in Efind as (Hd & _ & _).
  pose proof (delete_Permutation _ _ _ Hd) as Hperm.
  destruct after as [a|].
  - destruct (container st !! a) as [target|]; [|done].
    destruct (_ || _); [done|]. cbn [container set_container].
    etrans; [|symmetry; exact Hperm].
    rewrite <- Permutation_middle. by rewrite take_drop.
  - cbn [container set_container].
    etrans; [|symmetry; exact Hperm].
    by rewrite <- Permutation_cons_append.
Qed.

Lemma dragover_frame after st :
  isMultiSelectMode (container_dragover after st) = isMultiSelectMode st ∧
  selectedCards (container_dragover after st) = selectedCards st ∧
  currentFlashcards (container_dragover after st) = currentFlashcards st.
Proof.
  unfold container_dragover.
  destruct (list_find _ _) as [[p d]|]; [|done].
  destruct after as [a|]; [|done].
  destruct (container st !! a) as [target|]; [|done].
  by destruct (_ || _).
Qed.

(** Nothing is being dragged in multi-select mode. *)
Lemma no_dragging_in_multi_select st :
  page_invariant st → rendered_sound st → isMultiSelectMode st = true →
  list_find (fun el => Is_true (dragging el)) (container st) = None.
Proof.
  intros [_ Hp] (_ & _ & H3) Hm.
  destruct (list_find _ _) as [[p d]|] eqn:Efind; [|done].
  apply list_find_Some in Efind as (Hd & Hdrag & _).
  destruct (Forall_lookup_1 _ _ _ _ H3 Hd) as (_ & _ & Himp).
  destruct (Forall_lookup_1 _ _ _ _ Hp Hd) as [Hdr _].
  apply Is_true_true in Hdrag. rewrite (Himp Hdrag), Hm in Hdr. done.
Qed.

Lemma sound_dragover after st :
  page_invariant st → rendered_sound st →
  rendered_sound (container_dragover after st).
Proof.
  intros Hinv Hs.
  destruct (isMultiSelectMode st) eqn:Em.
  - unfold container_dragover. by rewrite no_dragging_in_multi_select.
  - destruct Hs as (H1 & H2 & H3).
    destruct (dragover_frame after st) as (Hm & Hsel & Hc).
    pose proof (dragover_permutes after st) as Hperm.
    unfold rendered_sound. rewrite Hm, Hsel, Hc, Em. split; [|split; [done|]].
    + destruct H1 as [H1|H1].
      * left. apply Permutation_nil_r. by rewrite <- H1.
      * right. by rewrite Hperm.
    + by rewrite Hperm.
Qed.

(** Every event keeps the agreement. *)
Lemma step_sound ev st :
  page_invariant st → rendered_sound st → rendered_sound (step ev st).
Proof.
  intros Hinv H. destruct ev; cbn [step].
  - unfold generate_click. destruct (generateDisabled st); [done|].
    destruct (negb _); apply sound_no_cards.
  - unfold generate_resolved. destruct (negb (generateDisabled st)); [done|].
    eapply sound_same; [reflexivity..|].
    destruct (JS.truthy responseText); [|by eapply sound_same; [..|exact H]].
    destruct (0 <? _); [|by eapply sound_same; [..|exact H]].
    eapply sound_same; [..|apply (sound_display (parse_response responseText) (set_error "" st))];
      done.
  - unfold generate_rejected. destruct (negb (generateDisabled st)); [done|].
    eapply sound_same; [reflexivity..|]. apply sound_no_cards.
  - apply sound_filter. by eapply sound_same; [..|exact H].
  - unfold undoButton_click. destruct (previousState st) as [previous|]; [|done].
    eapply sound_same; [reflexivity..|].
    eapply sound_same; [reflexivity..|].
    apply sound_filter.
    eapply sound_same; [..|apply (sound_display previous st)]; done.
  - unfold undo_message_timeout. case_decide; [|done].
    by eapply sound_same; [..|exact H].
  - unfold selectButton_click. apply sound_display.
  - unfold deleteSelectedButton_click. case_bool_decide; [done|].
    destruct confirmed; [|done].
    eapply sound_same; [..|apply sound_display]; try done.
  - by apply sound_card_click.
  - by apply sound_card_keydown.
  - unfold editButton_click. destruct (container st !! pos) as [el|]; [|done].
    destruct (is_editing el); [by apply sound_saveAndEndEditing|by apply sound_alter].
  - unfold field_input. destruct (container st !! pos) as [el|]; [|done].
    destruct (is_editing el); [|done]. destruct field; by apply sound_alter.
  - unfold field_keydown. apply sound_card_keydown.
    destruct key; try done; [by apply sound_saveAndEndEditing|by apply sound_cancelEditing].
  - by apply sound_saveAndEndEditing.
  - unfold deleteButton_click. destruct (container st !! pos) as [el|]; [|done].
    destruct confirmed; [|done].
    eapply sound_same; [..|apply sound_display]; try done.
  - unfold card_dragstart. destruct (container st !! pos) as [el|] eqn:Hel; [|done].
    destruct (draggable el) eqn:Hdr; [|done].
    destruct H as (H1 & H2 & H3). unfold rendered_sound.
    cbn [container currentFlashcards isMultiSelectMode selectedCards set_container].
    rewrite (map_alter_same data_index) by done. rewrite length_alter.
    split; [|split; [exact H2|]].
    + destruct H1 as [H1|H1]; [|by right]. by rewrite H1 in Hel.
    + apply Forall_alter; [exact H3|]. intros x Hx (Ha & Hb & Hc).
      rewrite Hel in Hx. injection Hx as <-. done.
  - by apply sound_dragover.
  - unfold card_dragend. destruct (container st !! pos) as [el|]; [|done].
    destruct (draggable el); [|done]. unfold updateOrderAndSave.
    eapply sound_same; [..|apply sound_filter, sound_display]; done.
  - by eapply sound_same; [..|exact H].
Qed.

Lemma boot_sound initialFlashcards e : rendered_sound (boot initialFlashcards e).
Proof.
  unfold boot. destruct initialFlashcards as [l|].
  - destruct (0 <? length l); [apply sound_display|].
    split; [by left|]. split; [done|constructor].
  - split; [by left|]. split; [done|constructor].
Qed.

Lemma reachable_sound initialFlashcards e st :
  reachable (boot initialFlashcards e) st → page_invariant st ∧ rendered_sound st.
Proof.
  induction 1 as [|st ev _ [IH1 IH2]].
  - split; [apply boot_invariant|apply boot_sound].
  - split; [by apply step_invariant|by apply step_sound].
Qed.

End Rendered.

(** ** Consequences for reordering and selecting *)

Section RenderedConsequences.

(** X8.  The end of a drag only permutes the list: no card is lost and none
    is duplicated, whatever the drag moves were. *)
Theorem reorder_is_permutation initialFlashcards e st pos el :
  reachable (boot initialFlashcards e) st →
  container st !! pos = Some el → draggable el = true →
  currentFlashcards (step (DragEnd pos) st) ≡ₚ currentFlashcards st.
Proof.
  intros [_ (H1 & _ & _)]%reachable_sound Hel Hdr.
  cbn [step]. unfold card_dragend. rewrite Hel, Hdr.
  rewrite updateOrderAndSave_cards.
  cbn [container currentFlashcards set_container].
  rewrite data_index_alter_dragging.
  destruct H1 as [H1|H1]; [by rewrite H1 in Hel|].
  rewrite H1. by rewrite omap_lookup_seq.
Qed.

Lemma reorder_is_permutation_witness :
  currentFlashcards
    (run [DragStart 0; DragOver (Some 3); DragOver None; DragEnd 3]
       (boot (Some four_cards) empty_env))
  ≡ₚ four_cards.
Proof.
  pose (st := run [DragStart 0; DragOver (Some 3); DragOver None]
                (boot (Some four_cards) empty_env)).
  assert (Hreach : reachable (boot (Some four_cards) empty_env) st).
  { apply reachable_run. constructor. }
  exact (reorder_is_permutation (Some four_cards) empty_env st 3
           (mkCardEl 0 (mkFlashcard "one" "1") "one" "1" false None
              false false false true false true) Hreach eq_refl eq_refl).
Defined.








End RenderedConsequences.

(** ** The filter across re-renders, and the counter *)

Section FilterSync.

Lemma display_filter_lookup l st0 st i card :
  currentFlashcards st = l → container st = imap (render_card st0) l →
  l !! i = Some card →
  ∃ el, container (applySearchFilter st) !! i = Some el ∧ data_index el = i ∧
        hidden el = negb (card_visible (search_words (searchValue st)) card).
Proof.
  intros Hc Hcont Hi. eexists. split.
  - apply (applySearchFilter_lookup st i card (render_card st0 i card)).
    + by rewrite Hc.
    + by rewrite Hcont, list_lookup_imap, Hi.
  - done.
Qed.

(** X12.  Undo and the end of a drag render the list and apply the search
    again: afterwards the card at each position is hidden exactly when it
    does not match what the search bar holds. *)
Theorem rerender_keeps_filter st ev :
  (ev = UndoClick ∧ is_Some (previousState st)) ∨
  (∃ pos el, ev = DragEnd pos ∧ container st !! pos = Some el ∧ draggable el = true) →
  ∀ i card,
    currentFlashcards (step ev st) !! i = Some card →
    ∃ el, container (step ev st) !! i = Some el ∧ data_index el = i ∧
          hidden el = negb (card_visible (search_words (searchValue (step ev st))) card).
Proof.
  intros [[-> [previous Hp]]|(pos & el & -> & Hel & Hdr)] i card; cbn [step].
  - unfold undoButton_click. rewrite Hp.
    cbn [currentFlashcards container searchValue set_error set_previous].
    set (s2 := set_env _ _). intros Hi.
    apply (display_filter_lookup previous st s2).
    + subst s2. cbn [currentFlashcards set_env]. apply displayFlashcards_cards.
    + subst s2. cbn [container set_env]. apply displayFlashcards_container.
    + revert Hi. unfold applySearchFilter. cbn [currentFlashcards set_container].
      subst s2. cbn [currentFlashcards set_env]. by rewrite displayFlashcards_cards.
  - unfold card_dragend. rewrite Hel, Hdr. unfold updateOrderAndSave.
    cbn [currentFlashcards container searchValue set_env].
    set (new := omap _ _). set (s1 := savePreviousState _). intros Hi.
    apply (display_filter_lookup new s1 (displayFlashcards new s1)).
    + apply displayFlashcards_cards.
    + apply displayFlashcards_container.
    + revert Hi. unfold applySearchFilter. cbn [currentFlashcards set_container].
      by rewrite displayFlashcards_cards.
Qed.

Lemma rerender_keeps_filter_witness :
  map hidden
    (container (run [SearchInput "t"; DeleteClick 0 true; UndoClick]
                  (boot (Some four_cards) empty_env)))
  = [true; false; false; true].
Proof.
  pose (st := run [SearchInput "t"; DeleteClick 0 true] (boot (Some four_cards) empty_env)).
  assert (Hev : (UndoClick = UndoClick ∧ is_Some (previousState st)) ∨
                (∃ pos el, UndoClick = DragEnd pos ∧ container st !! pos = Some el ∧
                           draggable el = true)).
  { left. split; [done|]. by eexists. }
  pose proof (rerender_keeps_filter st UndoClick Hev) as H.
  destruct (H 0 (mkFlashcard "one" "1") eq_refl) as (el0 & H0 & _).
  reflexivity.
Defined.

Lemma filter_length_map {A B} (p : B → bool) (g : A → B) (l : list A) :
  length (List.filter (fun x => p (g x)) l) = length (List.filter p (map g l)).
Proof.
  induction l as [|x l IH]; [done|]. simpl. destruct (p (g x)); simpl; by rewrite IH.
Qed.

Lemma applySearchFilter_hidden st :
  length (container st) = length (currentFlashcards st) →
  map hidden (container (applySearchFilter st))
  = map (fun card => negb (card_visible (search_words (searchValue st)) card))
        (currentFlashcards st).
Proof.
  intros Hlen. apply list_eq. intros i. rewrite !list_lookup_fmap.
  destruct (currentFlashcards st !! i) as [card|] eqn:Ec.
  - destruct (lookup_lt_is_Some_2 (container st) i) as [el Hel].
    { rewrite Hlen. by eapply lookup_lt_Some. }
    by rewrite (applySearchFilter_lookup st i card el Ec Hel).
  - unfold applySearchFilter. cbn [container set_container].
    rewrite filter_loop_lookup, decide_True, Nat.sub_0_r, Ec by lia.
    apply lookup_ge_None in Ec. rewrite <- Hlen in Ec.
    apply lookup_ge_None in Ec. by rewrite Ec.
Qed.

(** X13.  After a search input the counter is given the number of cards of
    the list that match the query, and the size of the list; with an
    empty list it is emptied.  This holds on every page the application
    can reach that shows its cards. *)
Theorem counter_after_search initialFlashcards e st query :
  reachable (boot initialFlashcards e) st → container st ≠ [] →
  updateFlashcardCount (step (SearchInput query) st)
  = Some (length (List.filter (card_visible (search_words query)) (currentFlashcards st)),
          length (currentFlashcards st)).
Proof.
  intros [_ (H1 & _ & _)]%reachable_sound Hne.
  destruct H1 as [H1|H1]; [done|].
  assert (Hlen : length (container st) = length (currentFlashcards st)).
  { apply Permutation_length in H1. by rewrite length_map, length_seq in H1. }
  unfold updateFlashcardCount. cbn [step].
  cbn [currentFlashcards applySearchFilter set_container set_search].
  rewrite decide_False.
  2:{ rewrite <- Hlen. by destruct (container st). }
  f_equal. f_equal.
  rewrite (filter_length_map negb hidden).
  pose proof (applySearchFilter_hidden (set_search query st) Hlen) as Hh.
  cbn [searchValue set_search currentFlashcards] in Hh. rewrite Hh.
  rewrite <- (filter_length_map negb). f_equal. apply filter_ext.
  intros card. apply negb_involutive.
Qed.

Lemma counter_after_search_witness :
  updateFlashcardCount (step (SearchInput "t") (boot (Some four_cards) empty_env))
  = Some (2, 4).
Proof.
  assert (Hreach : reachable (boot (Some four_cards) empty_env)
                     (boot (Some four_cards) empty_env)) by constructor.
  rewrite (counter_after_search (Some four_cards) empty_env _ "t" Hreach ltac:(discriminate)).
  reflexivity.
Defined.

End FilterSync.

(** ** The cards the parser yields *)

Section ParsedCards.

Lemma trimEnd_idem s : JS.trimEnd (JS.trimEnd s) = JS.trimEnd s.
Proof.
  induction s as [|c s IH]; [done|]. cbn [JS.trimEnd].
  destruct (JS.trimEnd s) as [|c' r'] eqn:E.
  - by destruct (JS.is_ws c) eqn:Ec; cbn [JS.trimEnd]; rewrite ?Ec.
  - cbn [JS.trimEnd] in IH |- *. by rewrite IH.
Qed.

Lemma trimStart_head s :
  JS.trimStart s = "" ∨ ∃ c r, JS.trimStart s = String c r ∧ JS.is_ws c = false.
Proof.
  induction s as [|c s IH]; [by left|]. cbn [JS.trimStart].
  destruct (JS.is_ws c) eqn:Ec; [exact IH|]. right. by exists c, s.
Qed.

Lemma trim_idem s : JS.trim (JS.trim s) = JS.trim s.
Proof.
  unfold JS.trim. destruct (trimStart_head s) as [->|(c & r & -> & Hc)]; [done|].
  assert (Hhead : ∃ r', JS.trimEnd (String c r) = String c r').
  { cbn [JS.trimEnd]. destruct (JS.trimEnd r); rewrite ?Hc; eauto. }
  destruct Hhead as [r' Hr']. rewrite Hr'. cbn [JS.trimStart]. rewrite Hc.
  by rewrite <- Hr', trimEnd_idem.
Qed.

Lemma has_unit_trimStart c s :
  Spec.has_unit c (JS.trimStart s) = true → Spec.has_unit c s = true.
Proof.
  induction s as [|x s IH]; [done|]. cbn [JS.trimStart].
  destruct (JS.is_ws x); [|done]. intros H. simpl. rewrite (IH H). apply orb_true_r.
Qed.

Lemma has_unit_trimEnd c s :
  Spec.has_unit c (JS.trimEnd s) = true → Spec.has_unit c s = true.
Proof.
  induction s as [|x s IH]; [done|]. cbn [JS.trimEnd].
  destruct (JS.trimEnd s) as [|c' r'] eqn:E.
  - destruct (JS.is_ws x); [done|]. simpl. rewrite orb_false_r. intros ->. done.
  - simpl. intros [H|H]%orb_true_iff; [by rewrite H|].
    rewrite IH; [apply orb_true_r|]. simpl. exact H.
Qed.

Lemma has_unit_trim c s : Spec.has_unit c s = false → Spec.has_unit c (JS.trim s) = false.
Proof.
  intros H. destruct (Spec.has_unit c (JS.trim s)) eqn:E; [|done].
  apply has_unit_trimEnd, has_unit_trimStart in E. congruence.
Qed.

(** X14.  Every card the parser yields is a card of the data model: its term
    and its definition are non-empty and trimmed and contain no newline,
    and the term contains no colon. *)
Theorem parsed_cards_valid responseText card :
  card ∈ parse_response responseText →
  Spec.valid_field (term card) ∧ Spec.valid_field (definition card) ∧
  Spec.has_unit ":" (term card) = false ∧
  Spec.has_unit "010" (term card) = false ∧
  Spec.has_unit "010" (definition card) = false.
Proof.
  rewrite parse_response_omap, list_elem_of_omap.
  intros (line & Hline & Hparse).
  apply split_pieces_sep_free in Hline.
  destruct (first_sep ":" line) as [Hno|(h & r & -> & Hh)].
  { by rewrite parse_line_no_colon in Hparse. }
  rewrite parse_line_colon in Hparse by done.
  destruct (JS.truthy (JS.trim h)) eqn:Eh; [|done].
  destruct (JS.truthy (JS.trim r)) eqn:Er; [|done].
  injection Hparse as <-. cbn [term definition].
  apply truthy_ne in Eh, Er.
  rewrite has_unit_app in Hline. apply orb_false_elim in Hline as [Hnh Hnr].
  simpl in Hnr.
  repeat split; try done; auto using trim_idem, has_unit_trim.
Qed.

Lemma parsed_cards_valid_witness :
  Spec.valid_field "Hola" ∧ Spec.has_unit ":" "Hello" = false.
Proof.
  assert (Hin : mkFlashcard "Hello" "Hola" ∈ parse_response "  Hello :  Hola  ").
  { apply list_elem_of_singleton. reflexivity. }
  destruct (parsed_cards_valid _ _ Hin) as (_ & Hd & Hc & _).
  split; [exact Hd|exact Hc].
Defined.

End ParsedCards.

(** ** Saving and loading *)

Section StorageRoundTrip.

Lemma steps_app st (a b : string) :
  JSON.steps st (a +:+ b)
  = match JSON.steps st a with Some st' => JSON.steps st' b | None => None end.
Proof.
  revert st. induction a as [|c a IH]; intros st; [done|].
  rewrite str_app_cons. cbn [JSON.steps]. destruct (JSON.step st c); [apply IH|done].
Qed.

Lemma steps_quote_unit stk k acc c :
  JSON.steps (JSON.mkP stk None (JSON.MString k acc)) (JSON.quote_unit c)
  = Some (JSON.mkP stk None (JSON.MString k (N_of_ascii c :: acc))).
Proof. destruct c as [[] [] [] [] [] [] [] []]; reflexivity. Qed.

Lemma steps_quote_units stk k acc s :
  JSON.steps (JSON.mkP stk None (JSON.MString k acc)) (JSON.quote_units s)
  = Some (JSON.mkP stk None (JSON.MString k (rev (Spec.units s) ++ acc))).
Proof.
  revert acc. induction s as [|c s IH]; intros acc; [done|].
  cbn [JSON.quote_units Spec.units rev]. rewrite steps_app, steps_quote_unit, IH.
  by rewrite <- app_assoc.
Qed.

Lemma steps_string_body stk k s rest :
  JSON.steps (JSON.mkP stk None (JSON.MString k [])) (JSON.quote_units s +:+ JSON.dquote +:+ rest)
  = match JSON.end_string k (Spec.units s) stk with
    | Some st' => JSON.steps st' rest
    | None => None
    end.
Proof.
  rewrite steps_app, steps_quote_units, app_nil_r.
  unfold JSON.dquote. rewrite str_app_cons, str_app_empty_l. cbn [JSON.steps].
  change (JSON.step (JSON.mkP stk None (JSON.MString k (rev (Spec.units s)))) "034")
    with (JSON.end_string k (rev (rev (Spec.units s))) stk).
  by rewrite rev_involutive.
Qed.

Lemma quote_open s rest :
  JSON.quote s +:+ rest
  = String "034" (JSON.quote_units s +:+ JSON.dquote +:+ rest).
Proof. unfold JSON.quote, JSON.dquote. by rewrite !str_app_assoc. Qed.

Lemma steps_quote_value stk res s rest :
  JSON.steps (JSON.mkP stk res JSON.MValue) (JSON.quote s +:+ rest)
  = match JSON.complete (JSON.Str (Spec.units s)) stk with
    | Some st' => JSON.steps st' rest
    | None => None
    end.
Proof. rewrite quote_open. cbn [JSON.steps]. apply steps_string_body. Qed.

Lemma steps_quote_key stk res m s rest :
  m = JSON.MObjectStart ∨ m = JSON.MKey →
  JSON.steps (JSON.mkP stk res m) (JSON.quote s +:+ rest)
  = match JSON.end_string true (Spec.units s) stk with
    | Some st' => JSON.steps st' rest
    | None => None
    end.
Proof.
  intros [-> | ->]; rewrite quote_open; cbn [JSON.steps]; apply steps_string_body.
Qed.

Lemma steps_card es stk res m card rest :
  m = JSON.MArrayStart ∨ m = JSON.MValue →
  JSON.steps (JSON.mkP (JSON.FArray es :: stk) res m) (stringify_card card +:+ rest)
  = JSON.steps (JSON.mkP (JSON.FArray (card_value card :: es) :: stk) None JSON.MAfter) rest.
Proof.
  intros Hm. unfold stringify_card. rewrite !str_app_assoc.
  rewrite str_app_cons, str_app_empty_l. cbn [JSON.steps].
  assert (JSON.step (JSON.mkP (JSON.FArray es :: stk) res m) "{"
          = Some (JSON.mkP (JSON.FObject [] None :: JSON.FArray es :: stk) None
                    JSON.MObjectStart)) as ->.
  { by destruct Hm as [-> | ->]. }
  rewrite (steps_quote_key _ _ JSON.MObjectStart) by (by left).
  cbn [JSON.end_string].
  rewrite str_app_cons, str_app_empty_l. cbn [JSON.steps].
  change (JSON.step _ ":") with
    (Some (JSON.mkP (JSON.FObject [] (Some (Spec.units "term")) :: JSON.FArray es :: stk)
             None JSON.MValue)).
  cbn match. rewrite steps_quote_value. cbn [JSON.complete].
  rewrite str_app_cons, str_app_empty_l. cbn [JSON.steps].
  change (JSON.step _ ",") with
    (Some (JSON.mkP (JSON.FObject [(Spec.units "term", JSON.Str (Spec.units (term card)))] None
                       :: JSON.FArray es :: stk) None JSON.MKey)).
  cbn match. rewrite (steps_quote_key _ _ JSON.MKey) by (by right).
  cbn [JSON.end_string].
  rewrite str_app_cons, str_app_empty_l. cbn [JSON.steps].
  change (JSON.step _ ":") with
    (Some (JSON.mkP (JSON.FObject [(Spec.units "term", JSON.Str (Spec.units (term card)))]
                       (Some (Spec.units "definition")) :: JSON.FArray es :: stk)
             None JSON.MValue)).
  cbn match. rewrite steps_quote_value. cbn [JSON.complete].
  rewrite str_app_cons, str_app_empty_l. cbn [JSON.steps].
  change (JSON.step _ "}") with
    (Some (JSON.mkP (JSON.FArray (card_value card :: es) :: stk) None JSON.MAfter)).
  done.
Qed.

Lemma steps_cards es stk res m card cards rest :
  m = JSON.MArrayStart ∨ m = JSON.MValue →
  JSON.steps (JSON.mkP (JSON.FArray es :: stk) res m)
    (JS.join "," (map stringify_card (card :: cards)) +:+ rest)
  = JSON.steps
      (JSON.mkP (JSON.FArray (rev (map card_value (card :: cards)) ++ es) :: stk)
         None JSON.MAfter) rest.
Proof.
  revert es res m card. induction cards as [|card' cards IH]; intros es res m card Hm.
  - cbn [map JS.join rev app]. by apply steps_card.
  - change (JS.join "," (map stringify_card (card :: card' :: cards)))
      with (stringify_card card +:+ "," +:+ JS.join "," (map stringify_card (card' :: cards))).
    rewrite !str_app_assoc, steps_card by done.
    rewrite str_app_cons, str_app_empty_l. cbn [JSON.steps].
    change (JSON.step _ ",") with
      (Some (JSON.mkP (JSON.FArray (card_value card :: es) :: stk) None JSON.MValue)).
    cbn match. rewrite IH by (by right).
    cbn [map rev]. by rewrite <- !app_assoc.
Qed.

(** What [JSON.stringify] writes for a card list, [JSON.parse] reads
    back as the array of the cards' objects. *)
Lemma parse_stringify cards :
  JSON.parse (stringify cards) = Some (JSON.Array (map card_value cards)).
Proof.
  unfold JSON.parse, stringify. rewrite str_app_cons, str_app_empty_l. cbn [JSON.steps].
  change (JSON.step _ "[") with
    (Some (JSON.mkP [JSON.FArray []] None JSON.MArrayStart)).
  cbn match. destruct cards as [|card cards]; [done|].
  rewrite steps_cards by (by left).
  cbn [JSON.steps]. change (JSON.step _ "]") with
    (JSON.complete (JSON.Array (rev (rev (map card_value (card :: cards)) ++ []))) []).
  by rewrite app_nil_r, rev_involutive.
Qed.


Lemma units_inj s1 s2 : Spec.units s1 = Spec.units s2 → s1 = s2.
Proof.
  revert s2. induction s1 as [|c1 s1 IH]; intros [|c2 s2]; simpl; try done.
  intros [= Hc Hs]. f_equal; [|by apply IH].
  by rewrite <- (ascii_N_embedding c1), <- (ascii_N_embedding c2), Hc.
Qed.

Lemma card_values_inj cards1 cards2 :
  map card_value cards1 = map card_value cards2 → cards1 = cards2.
Proof.
  revert cards2. induction cards1 as [|[t1 d1] cards1 IH]; intros [|[t2 d2] cards2];
    simpl; try done.
  intros [= Ht Hd Hrest]. apply units_inj in Ht, Hd. subst. f_equal. by apply IH.
Qed.

(** X15.  What [saveFlashcards] stores, [loadFlashcards] reads back: while
    storage accepts the write, loading after saving returns the array of
    the saved cards' objects, from which the cards can be told, and
    leaves storage as the save left it. *)
Theorem save_then_load cards e :
  ls_quota_exceeded e = false →
  loadFlashcards (saveFlashcards cards e)
  = (JSON.Array (map card_value cards), saveFlashcards cards e) ∧
  Spec.well_formed_cards (stringify cards) = true ∧
  ∀ cards', map card_value cards' = map card_value cards → cards' = cards.
Proof.
  intros Hq. split; [|split].
  - unfold loadFlashcards. rewrite saveFlashcards_stored by done.
    rewrite parse_stringify. done.
  - unfold Spec.well_formed_cards. rewrite parse_stringify.
    apply forallb_forall. intros v [card [<- _]]%in_map_iff. done.
  - intros cards'. apply card_values_inj.
Qed.

Lemma save_then_load_witness :
  (loadFlashcards (saveFlashcards four_cards empty_env)).1
  = JSON.Array (map card_value four_cards).
Proof.
  destruct (save_then_load four_cards empty_env eq_refl) as (H & _).
  by rewrite H.
Defined.

End StorageRoundTrip.

(** ** The drop position *)

Section DropPosition.

Lemma SFltb_trans a b c :
  SFltb a b = true → SFltb b c = true → SFltb a c = true.
Proof.
  unfold SFltb, SFcompare.
  destruct a as [[]|[]| |[] ma ea], b as [[]|[]| |[] mb eb], c as [[]|[]| |[] mc ec];
    try done.
  - rewrite !Pos.compare_cont_spec. simpl.
    destruct (Z.compare_spec ea eb), (Z.compare_spec eb ec), (Z.compare_spec ea ec);
      try done; try lia; subst;
      destruct (Pos.compare_spec ma mb), (Pos.compare_spec mb mc), (Pos.compare_spec ma mc);
      simpl; try done; try lia.
  - rewrite !Pos.compare_cont_spec. simpl.
    destruct (Z.compare_spec ea eb), (Z.compare_spec eb ec), (Z.compare_spec ea ec);
      try done; try lia; subst;
      destruct (Pos.compare_spec ma mb), (Pos.compare_spec mb mc), (Pos.compare_spec ma mc);
      simpl; try done; try lia.
Qed.

Lemma ltb_trans (a b c : float) :
  (a <? b)%float = true → (b <? c)%float = true → (a <? c)%float = true.
Proof. rewrite !ltb_spec. apply SFltb_trans. Qed.

Lemma SFltb_irrefl a : SFltb a a = false.
Proof.
  unfold SFltb, SFcompare. destruct a as [[]|[]| |[] m e]; try done.
  - by rewrite Z.compare_refl, Pos.compare_cont_spec, Pos.compare_refl.
  - by rewrite Z.compare_refl, Pos.compare_cont_spec, Pos.compare_refl.
Qed.

Lemma ltb_irrefl (a : float) : (a <? a)%float = false.
Proof. rewrite ltb_spec. apply SFltb_irrefl. Qed.

Lemma draggableElements_spec els boxes pos box :
  (pos, box) ∈ draggableElements els boxes ↔
  ∃ el, els !! pos = Some el ∧ boxes !! pos = Some box ∧
        dragging el = false ∧ hidden el = false.
Proof.
  unfold draggableElements. rewrite list_elem_of_omap. split.
  - intros ([i [el b]] & Hin & Hf).
    apply list_elem_of_lookup in Hin as [j Hj].
    apply lookup_zip_with_Some in Hj as (i' & [el' b'] & [= -> -> ->] & Hseq & Hzip).
    apply lookup_seq in Hseq as [-> _]. simpl in *.
    apply lookup_zip_with_Some in Hzip as (el'' & b'' & [= -> ->] & Hel & Hb).
    destruct (dragging el'') eqn:Ed, (hidden el'') eqn:Eh; simpl in Hf; try done.
    injection Hf as <- <-. by exists el''.
  - intros (el & Hel & Hb & Hd & Hh).
    exists (pos, (el, box)). split.
    + apply list_elem_of_lookup. exists pos.
      apply lookup_zip_with_Some. exists pos, (el, box). split; [done|]. split.
      * apply lookup_seq. split; [done|]. by eapply lookup_lt_Some.
      * apply lookup_zip_with_Some. by exists el, box.
    + by rewrite Hd, Hh.
Qed.

Lemma closer_closest_of y seen cl child :
  closest_of y seen cl → closest_of y (seen ++ [child]) (closer y cl child).
Proof.
  intros [Hel Hmax]. unfold closer.
  destruct (drag_offset y child.2 <? 0)%float eqn:Eneg;
    [destruct (offset cl <? drag_offset y child.2)%float eqn:Ecl|]; cbn [andb].
  - split; cbn [element offset].
    + exists child.2. split; [|done]. apply elem_of_app. right.
      apply list_elem_of_singleton. by destruct child.
    + intros c [Hc|Hc%list_elem_of_singleton]%elem_of_app Hcneg.
      * destruct (drag_offset y child.2 <? drag_offset y c.2)%float eqn:E; [|done].
        rewrite <- (Hmax c Hc Hcneg). symmetry. by eapply ltb_trans.
      * subst c. apply ltb_irrefl.
  - split.
    + destruct (element cl) as [p|]; [|exact Hel].
      destruct Hel as (box & Hin & Ho & Hn). exists box. split; [|done].
      apply elem_of_app. by left.
    + intros c [Hc|Hc%list_elem_of_singleton]%elem_of_app Hcneg; [by apply Hmax|].
      by subst c.
  - split.
    + destruct (element cl) as [p|]; [|exact Hel].
      destruct Hel as (box & Hin & Ho & Hn). exists box. split; [|done].
      apply elem_of_app. by left.
    + intros c [Hc|Hc%list_elem_of_singleton]%elem_of_app Hcneg; [by apply Hmax|].
      subst c. congruence.
Qed.

Lemma fold_closest_of y seen rest cl :
  closest_of y seen cl → closest_of y (seen ++ rest) (fold_left (closer y) rest cl).
Proof.
  revert seen cl. induction rest as [|child rest IH]; intros seen cl H.
  - by rewrite app_nil_r.
  - cbn [fold_left]. rewrite (cons_middle child seen rest), app_assoc.
    apply IH. by apply closer_closest_of.
Qed.

Lemma getDragAfterElement_found els boxes y :
  let candidate q box :=
    ∃ el, els !! q = Some el ∧ boxes !! q = Some box ∧
          dragging el = false ∧ hidden el = false in
  match getDragAfterElement els boxes y with
  | Some p =>
      ∃ box, candidate p box ∧ (drag_offset y box <? 0)%float = true ∧
             ∀ q box', candidate q box' → (drag_offset y box' <? 0)%float = true →
                       (drag_offset y box <? drag_offset y box')%float = false
  | None =>
      ∀ q box', candidate q box' → (drag_offset y box' <? 0)%float = true →
                (neg_infinity <? drag_offset y box')%float = false
  end.
Proof.
  intros candidate. unfold getDragAfterElement.
  assert (H0 : closest_of y [] (mkClosest neg_infinity None)).
  { split; [done|]. by intros c Hc%elem_of_nil. }
  apply (fold_closest_of y [] (draggableElements els boxes)) in H0.
  rewrite app_nil_l in H0. destruct H0 as [Hel Hmax].
  destruct (element _) as [p|].
  - destruct Hel as (box & Hin & Ho & Hn). exists box.
    split; [by apply draggableElements_spec|]. split; [done|].
    intros q box' Hq Hneg. rewrite <- Ho.
    apply (Hmax (q, box')); [by apply draggableElements_spec|done].
  - intros q box' Hq Hneg. rewrite <- Hel.
    apply (Hmax (q, box')); [by apply draggableElements_spec|done].
Qed.


Lemma dragover_before_target st p d a target :
  list_find (fun el => Is_true (dragging el)) (container st) = Some (p, d) →
  container st !! a = Some target → dragging target = false → hidden target = false →
  ∃ i, container (container_dragover (Some a) st) !! i = Some d ∧
       container (container_dragover (Some a) st) !! S i = Some target.
Proof.
  intros Hfind Ht Hd Hh. unfold container_dragover. rewrite Hfind, Ht, Hd, Hh.
  cbn [orb container set_container].
  apply list_find_Some in Hfind as (Hp & Hdrag & _).
  assert (Hne : a ≠ p).
  { intros ->. rewrite Hp in Ht. injection Ht as ->. by rewrite Hd in Hdrag. }
  set (others := delete p (container st)).
  set (a' := if a <? p then a else a - 1).
  assert (Ho : others !! a' = Some target).
  { subst others a'. destruct (a <? p) eqn:E.
    - apply Nat.ltb_lt in E. by rewrite list_lookup_delete_lt.
    - apply Nat.ltb_ge in E. rewrite list_lookup_delete_ge by lia.
      by replace (S (a - 1)) with a by lia. }
  assert (Hlen : length (take a' others) = a').
  { apply length_take_le. apply lookup_lt_Some in Ho. lia. }
  exists a'. split.
  - by apply list_lookup_middle.
  - rewrite lookup_app_r by lia. rewrite Hlen.
    replace (S a' - a') with 1 by lia.
    change ((d :: drop a' others) !! 1) with (drop a' others !! 0).
    rewrite lookup_drop. by rewrite Nat.add_0_r.
Qed.

(** X19.  While a card is dragged, a [dragover] puts it right before the card
    [getDragAfterElement] returns, or last when there is none; the page
    keeps the same cards, and the list, the undo slot and the environment
    are untouched. *)
Theorem dragover_places_dragged st boxes clientY p d :
  list_find (fun el => Is_true (dragging el)) (container st) = Some (p, d) →
  let st' := flashcardsContainer_dragover clientY boxes st in
  match getDragAfterElement (container st) boxes clientY with
  | Some a =>
      ∃ i target, container st !! a = Some target ∧
                  container st' !! i = Some d ∧ container st' !! S i = Some target
  | None => last (container st') = Some d
  end ∧
  container st' ≡ₚ container st ∧
  currentFlashcards st' = currentFlashcards st ∧
  previousState st' = previousState st ∧ env st' = env st.
Proof.
  intros Hfind st'. subst st'. unfold flashcardsContainer_dragover.
  split; [|split; [apply dragover_permutes|]].
  - pose proof (getDragAfterElement_found (container st) boxes clientY) as Hn.
    cbv zeta in Hn.
    destruct (getDragAfterElement (container st) boxes clientY) as [a|].
    + destruct Hn as (box & (target & Ht & _ & Hd & Hh) & _).
      destruct (dragover_before_target st p d a target Hfind Ht Hd Hh) as (i & H1 & H2).
      by exists i, target.
    + unfold container_dragover. rewrite Hfind. cbn [container set_container].
      apply last_snoc.
  - exact (proj2 (drag_moves_frame st 0 _)).
Qed.

Lemma dragover_places_dragged_witness :
  map data_index
    (container (flashcardsContainer_dragover 220 row_boxes
                  (run [DragStart 0] (boot (Some four_cards) empty_env))))
  = [1; 0; 2; 3].
Proof.
  pose (st := run [DragStart 0] (boot (Some four_cards) empty_env)).
  destruct (dragover_places_dragged st row_boxes 220 0
              (mkCardEl 0 (mkFlashcard "one" "1") "one" "1" false None
                 false false false true false true) eq_refl) as (_ & _).
  reflexivity.
Defined.

End DropPosition.

(** ** Storage never steers the page *)

Section StorageIndependence.

Local Ltac unfold_setters :=
  unfold in_memory, savePreviousState, exitEditMode, set_cards, set_previous, set_mode,
    set_selection, set_container, set_search, set_error, set_disabled, set_env in *.

Local Ltac same_memory :=
  intros [c1 p1 m1 s1 k1 v1 r1 g1 e1] [c2 p2 m2 s2 k2 v2 r2 g2 e2] H;
  unfold in_memory in H; cbn in H; simplify_eq.

Lemma displayFlashcards_memory l st1 st2 :
  in_memory st1 = in_memory st2 →
  in_memory (displayFlashcards l st1) = in_memory (displayFlashcards l st2).
Proof.
  revert st1 st2. same_memory. unfold displayFlashcards, render_card. unfold_setters. cbn.
  by case_decide.
Qed.

Lemma applySearchFilter_memory st1 st2 :
  in_memory st1 = in_memory st2 →
  in_memory (applySearchFilter st1) = in_memory (applySearchFilter st2).
Proof. revert st1 st2. same_memory. done. Qed.

Lemma set_env_memory e st : in_memory (set_env e st) = in_memory st.
Proof. done. Qed.

Lemma toggleCardSelection_memory i st1 st2 :
  in_memory st1 = in_memory st2 →
  in_memory (toggleCardSelection i st1) = in_memory (toggleCardSelection i st2).
Proof.
  revert st1 st2. same_memory. unfold toggleCardSelection. cbn.
  destruct (k2 !! i); [|done]. by case_bool_decide.
Qed.

Lemma flipCard_memory i st1 st2 :
  in_memory st1 = in_memory st2 →
  in_memory (flipCard i st1) = in_memory (flipCard i st2).
Proof.
  revert st1 st2. same_memory. unfold flipCard. cbn.
  destruct (k2 !! i) as [el|]; [|done]. by destruct (is_editing el).
Qed.

Lemma card_keydown_memory pos key st1 st2 :
  in_memory st1 = in_memory st2 →
  in_memory (card_keydown pos key st1) = in_memory (card_keydown pos key st2).
Proof.
  intros H. unfold card_keydown.
  assert (Hc : container st1 = container st2) by (unfold in_memory in H; congruence).
  assert (Hm : isMultiSelectMode st1 = isMultiSelectMode st2)
    by (unfold in_memory in H; congruence).
  rewrite Hc, Hm. destruct (container st2 !! pos) as [el|]; [|done].
  destruct key; try done; destruct (is_editing el); try done;
    destruct (isMultiSelectMode st2);
    auto using toggleCardSelection_memory, flipCard_memory.
Qed.

Lemma saveAndEndEditing_memory pos st1 st2 :
  in_memory st1 = in_memory st2 →
  in_memory (saveAndEndEditing pos st1) = in_memory (saveAndEndEditing pos st2).
Proof.
  revert st1 st2. same_memory. unfold saveAndEndEditing. cbn.
  destruct (k2 !! pos) as [el|]; [|done].
  destruct (negb (is_editing el)); [done|].
  destruct (c2 !! data_index el); [|done].
  by destruct (_ || _).
Qed.

Lemma cancelEditing_memory pos st1 st2 :
  in_memory st1 = in_memory st2 →
  in_memory (cancelEditing pos st1) = in_memory (cancelEditing pos st2).
Proof.
  revert st1 st2. same_memory. unfold cancelEditing. cbn.
  destruct (k2 !! pos) as [el|]; [|done]. by destruct (originalCardState el).
Qed.

Lemma step_memory ev st1 st2 :
  in_memory st1 = in_memory st2 →
  in_memory (step ev st1) = in_memory (step ev st2).
Proof.
  intros H. destruct ev; cbn [step].
  - revert st1 st2 H. same_memory. unfold generate_click. cbn.
    destruct g2; [done|]. by destruct (negb _).
  - revert st1 st2 H. same_memory. unfold generate_resolved. cbn.
    destruct (negb g2); [done|]. destruct (JS.truthy responseText); [|done].
    destruct (parse_response responseText) as [|card cards]; [done|]. done.
  - revert st1 st2 H. same_memory. unfold generate_rejected. cbn.
    by destruct (negb g2).
  - revert st1 st2 H. same_memory. done.
  - revert st1 st2 H. same_memory. unfold undoButton_click. cbn.
    destruct p2; [|done]. unfold displayFlashcards. cbn. by case_decide.
  - revert st1 st2 H. same_memory. unfold undo_message_timeout. cbn. by case_decide.
  - revert st1 st2 H. same_memory. unfold selectButton_click. cbn.
    destruct (negb m2); cbn; unfold displayFlashcards; cbn; by case_decide.
  - revert st1 st2 H. same_memory. unfold deleteSelectedButton_click. cbn.
    case_bool_decide; [done|]. destruct confirmed; [|done].
    unfold displayFlashcards. cbn. by case_decide.
  - assert (Hc : container st1 = container st2) by (unfold in_memory in H; congruence).
    assert (Hm : isMultiSelectMode st1 = isMultiSelectMode st2)
      by (unfold in_memory in H; congruence).
    unfold card_click. rewrite Hc, Hm. destruct (container st2 !! pos) as [el|]; [|done].
    destruct (isMultiSelectMode st2);
      auto using toggleCardSelection_memory, flipCard_memory.
  - by apply card_keydown_memory.
  - assert (Hc : container st1 = container st2) by (unfold in_memory in H; congruence).
    unfold editButton_click. rewrite Hc. destruct (container st2 !! pos) as [el|]; [|done].
    destruct (is_editing el); [by apply saveAndEndEditing_memory|].
    revert st1 st2 H Hc. same_memory. done.
  - revert st1 st2 H. same_memory. unfold field_input. cbn.
    destruct (k2 !! pos) as [el|]; [|done]. destruct (is_editing el); [|done].
    by destruct field.
  - unfold field_keydown. apply card_keydown_memory.
    destruct key; auto using saveAndEndEditing_memory, cancelEditing_memory.
  - by apply saveAndEndEditing_memory.
  - revert st1 st2 H. same_memory. unfold deleteButton_click. cbn.
    destruct (k2 !! pos) as [el|]; [|done]. destruct confirmed; [|done].
    unfold displayFlashcards. cbn. by case_decide.
  - revert st1 st2 H. same_memory. unfold card_dragstart. cbn.
    destruct (k2 !! pos) as [el|]; [|done]. by destruct (draggable el).
  - revert st1 st2 H. same_memory. unfold container_dragover. cbn.
    destruct (list_find _ _) as [[p d]|]; [|done]. destruct after as [a|]; [|done].
    destruct (k2 !! a) as [target|]; [|done]. by destruct (_ || _).
  - revert st1 st2 H. same_memory. unfold card_dragend. cbn.
    destruct (k2 !! pos) as [el|]; [|done]. destruct (draggable el); [|done].
    unfold updateOrderAndSave, displayFlashcards. cbn. by case_decide.
  - revert st1 st2 H. same_memory. done.
Qed.


(** X16.  Whatever storage holds and whether or not it accepts writes, a run
    of events leaves the same list, undo slot, selection, mode, page and
    messages: nothing but the environment depends on the environment. *)
Theorem storage_never_steers evs st e' :
  in_memory (run evs (set_env e' st)) = in_memory (run evs st).
Proof.
  assert (H : ∀ st1 st2, in_memory st1 = in_memory st2 →
                         in_memory (run evs st1) = in_memory (run evs st2)).
  { induction evs as [|ev evs IH]; intros st1 st2 H; [done|].
    cbn [run fold_left]. apply IH. by apply step_memory. }
  by apply H.
Qed.

End StorageIndependence.

(** ** The theme *)

Section Theme.

Lemma setTheme_accepted theme p :
  ls_quota_exceeded (theme_env p) = false →
  (setTheme theme p).2 = true ∧
  dark_mode (setTheme theme p).1 = bool_decide (theme = "dark") ∧
  toggle_label (setTheme theme p).1
  = (if bool_decide (theme = "dark") then "Switch to light mode" else "Switch to dark mode") ∧
  toggle_listening (setTheme theme p).1 = toggle_listening p ∧
  getItem THEME_LOCAL_STORAGE_KEY (theme_env (setTheme theme p).1) = Some theme ∧
  ls_quota_exceeded (theme_env (setTheme theme p).1) = false ∧
  (∀ key, key ≠ THEME_LOCAL_STORAGE_KEY →
          getItem key (theme_env (setTheme theme p).1) = getItem key (theme_env p)).
Proof.
  intros Hq. unfold setTheme, setItem. rewrite Hq. cbn.
  repeat split; try done.
  - unfold getItem. cbn. apply lookup_insert_eq.
  - intros key Hkey. unfold getItem. cbn. by apply lookup_insert_ne.
Qed.

Lemma initializeTheme_accepted systemPrefersDark p :
  ls_quota_exceeded (theme_env p) = false →
  let started := initializeTheme systemPrefersDark p in
  started.2 = true ∧ toggle_listening started.1 = true ∧
  (∀ saved, getItem THEME_LOCAL_STORAGE_KEY (theme_env p) = Some saved → saved ≠ "" →
            dark_mode started.1 = bool_decide (saved = "dark") ∧
            getItem THEME_LOCAL_STORAGE_KEY (theme_env started.1) = Some saved) ∧
  (getItem THEME_LOCAL_STORAGE_KEY (theme_env p) = None ∨
   getItem THEME_LOCAL_STORAGE_KEY (theme_env p) = Some "" →
   dark_mode started.1 = systemPrefersDark ∧
   getItem THEME_LOCAL_STORAGE_KEY (theme_env started.1)
   = Some (if systemPrefersDark then "dark" else "light")).
Proof.
  intros Hq started. subst started. unfold initializeTheme.
  set (chosen := match getItem _ _ with Some t => _ | None => _ end).
  destruct (setTheme_accepted chosen p Hq) as (Hok & Hd & _ & _ & Hg & _).
  destruct (setTheme chosen p) as [p' ok]. cbn [fst snd] in *. subst ok.
  cbn [fst snd dark_mode toggle_listening theme_env].
  split; [done|]. split; [done|]. split.
  - intros saved Hs Hne. subst chosen. rewrite Hs in Hd, Hg.
    apply truthy_ne in Hne. rewrite Hne in Hd, Hg. done.
  - intros [Hs|Hs]; subst chosen; rewrite Hs in Hd, Hg; cbn [JS.truthy] in Hd, Hg;
      rewrite Hd, Hg; by destruct systemPrefersDark.
Qed.

(** X20.  With storage accepting writes, [initializeTheme] completes and adds
    the toggle's listener; a saved, non-empty preference decides the
    theme (dark exactly when it is the text dark) and is stored again as
    it is; with no saved preference, or an empty one, the system's
    preference decides and is stored. *)
Theorem theme_initialized systemPrefersDark p :
  ls_quota_exceeded (theme_env p) = false →
  let started := initializeTheme systemPrefersDark p in
  started.2 = true ∧ toggle_listening started.1 = true ∧
  (∀ saved, getItem THEME_LOCAL_STORAGE_KEY (theme_env p) = Some saved → saved ≠ "" →
            dark_mode started.1 = bool_decide (saved = "dark") ∧
            getItem THEME_LOCAL_STORAGE_KEY (theme_env started.1) = Some saved) ∧
  (getItem THEME_LOCAL_STORAGE_KEY (theme_env p) = None ∨
   getItem THEME_LOCAL_STORAGE_KEY (theme_env p) = Some "" →
   dark_mode started.1 = systemPrefersDark ∧
   getItem THEME_LOCAL_STORAGE_KEY (theme_env started.1)
   = Some (if systemPrefersDark then "dark" else "light")).
Proof. apply initializeTheme_accepted. Qed.

Lemma theme_initialized_witness :
  dark_mode (initializeTheme true (mkThemePage false "" false empty_env)).1 = true.
Proof.
  destruct (theme_initialized true (mkThemePage false "" false empty_env) eq_refl)
    as (_ & _ & _ & Hnone).
  destruct (Hnone (or_introl eq_refl)) as [Hd _]. exact Hd.
Defined.

Lemma themeToggle_click_accepted q :
  toggle_listening q = true → ls_quota_exceeded (theme_env q) = false →
  dark_mode (themeToggle_click q) = negb (dark_mode q) ∧
  getItem THEME_LOCAL_STORAGE_KEY (theme_env (themeToggle_click q))
  = Some (if negb (dark_mode q) then "dark" else "light") ∧
  toggle_label (themeToggle_click q)
  = (if negb (dark_mode q) then "Switch to light mode" else "Switch to dark mode") ∧
  toggle_listening (themeToggle_click q) = true ∧
  ls_quota_exceeded (theme_env (themeToggle_click q)) = false.
Proof.
  intros Hlq Hqq. unfold themeToggle_click. rewrite Hlq.
  destruct (setTheme_accepted (if dark_mode q then "light" else "dark") q Hqq)
    as (_ & Hd & Hlab & Hlis & Hg & Hq' & _).
  rewrite Hd, Hlab, Hlis, Hg, Hq', Hlq. by destruct (dark_mode q).
Qed.

(** X21.  A click on the theme toggle switches the theme, stores the theme
    now shown and labels the button for the way back; a second click
    brings back the theme and its stored name. *)
Theorem theme_toggle_twice p :
  toggle_listening p = true → ls_quota_exceeded (theme_env p) = false →
  let once := themeToggle_click p in
  let twice := themeToggle_click once in
  dark_mode once = negb (dark_mode p) ∧
  getItem THEME_LOCAL_STORAGE_KEY (theme_env once)
  = Some (if dark_mode once then "dark" else "light") ∧
  toggle_label once
  = (if dark_mode once then "Switch to light mode" else "Switch to dark mode") ∧
  dark_mode twice = dark_mode p ∧
  getItem THEME_LOCAL_STORAGE_KEY (theme_env twice)
  = Some (if dark_mode p then "dark" else "light").
Proof.
  intros Hl Hq once twice.
  subst once twice.
  destruct (themeToggle_click_accepted p Hl Hq) as (H1 & H2 & H3 & H4 & H5).
  destruct (themeToggle_click_accepted (themeToggle_click p) H4 H5) as (H1' & H2' & _).
  rewrite H1', H2', H3, H2, H1, negb_involutive. done.
Qed.

Lemma theme_toggle_twice_witness :
  dark_mode (themeToggle_click (themeToggle_click (mkThemePage true "" true empty_env)))
  = true.
Proof.
  destruct (theme_toggle_twice (mkThemePage true "" true empty_env) eq_refl eq_refl)
    as (_ & _ & _ & H & _).
  exact H.
Defined.

(** X22.  The theme chosen by a click survives a reload: initializing a page
    over the storage the click left shows that theme, whatever the system
    prefers. *)
Theorem theme_survives_reload p fresh systemPrefersDark :
  toggle_listening p = true → ls_quota_exceeded (theme_env p) = false →
  theme_env fresh = theme_env (themeToggle_click p) →
  dark_mode (initializeTheme systemPrefersDark fresh).1
  = dark_mode (themeToggle_click p).
Proof.
  intros Hl Hq Henv.
  destruct (themeToggle_click_accepted p Hl Hq) as (Hd1 & Hg & _ & _ & Hq1).
  rewrite <- Hd1 in Hg.
  assert (Hq' : ls_quota_exceeded (theme_env fresh) = false) by (by rewrite Henv).
  destruct (initializeTheme_accepted systemPrefersDark fresh Hq') as (_ & _ & Hsaved & _).
  rewrite <- Henv in Hg.
  destruct (Hsaved _ Hg) as [Hd _].
  - by destruct (dark_mode (themeToggle_click p)).
  - rewrite Hd. by destruct (dark_mode (themeToggle_click p)).
Qed.

Lemma theme_survives_reload_witness :
  dark_mode
    (initializeTheme true
       (mkThemePage false "" false
          (theme_env (themeToggle_click (mkThemePage true "" true empty_env))))).1
  = false.
Proof.
  exact (theme_survives_reload (mkThemePage true "" true empty_env)
           (mkThemePage false "" false
              (theme_env (themeToggle_click (mkThemePage true "" true empty_env))))
           true eq_refl eq_refl eq_refl).
Defined.

(** X23.  When storage rejects the write, [initializeTheme] sets the class of
    the chosen theme and stops there: nothing is stored, the label is not
    set and the toggle gets no listener, so clicks on it do nothing. *)
Theorem theme_storage_failure systemPrefersDark p :
  ls_quota_exceeded (theme_env p) = true → toggle_listening p = false →
  let started := initializeTheme systemPrefersDark p in
  started.2 = false ∧
  ls_items (theme_env started.1) = ls_items (theme_env p) ∧
  toggle_label started.1 = toggle_label p ∧
  toggle_listening started.1 = false ∧
  themeToggle_click started.1 = started.1 ∧
  ((getItem THEME_LOCAL_STORAGE_KEY (theme_env p) = None →
    dark_mode started.1 = systemPrefersDark)).
Proof.
  intros Hq Hl started. subst started.
  unfold initializeTheme, setTheme, setItem. rewrite Hq. cbn.
  unfold themeToggle_click. cbn. rewrite Hl.
  repeat split; try done.
  intros ->. by destruct systemPrefersDark.
Qed.

Lemma theme_storage_failure_witness :
  (initializeTheme true (mkThemePage false "" false (mkEnv ∅ true [] []))).2 = false.
Proof.
  destruct (theme_storage_failure true (mkThemePage false "" false (mkEnv ∅ true [] []))
              eq_refl eq_refl) as (H & _).
  exact H.
Defined.

End Theme.

(** ** Storage that rejects writes *)

Section FullStorage.

Lemma saveFlashcards_full l e :
  ls_quota_exceeded e = true →
  ls_items (saveFlashcards l e) = ls_items e ∧
  console_errors (saveFlashcards l e)
  = console_errors e ++ ["Could not save flashcards to local storage:"].
Proof. intros H. unfold saveFlashcards, setItem. by rewrite H. Qed.

(** X17.  While storage rejects writes, no event changes what is stored: the
    handlers go on, each failed save being logged to the console. *)
Theorem full_storage_keeps_items ev st :
  ls_quota_exceeded (env st) = true → (∀ b, ev ≠ QuotaChange b) →
  ls_items (env (step ev st)) = ls_items (env st) ∧
  ls_quota_exceeded (env (step ev st)) = true.
Proof.
  intros Hq Hev.
  assert (Hsave : ∀ l, ls_items (saveFlashcards l (env st)) = ls_items (env st) ∧
                       ls_quota_exceeded (saveFlashcards l (env st)) = true).
  { intros l. split; [by apply saveFlashcards_full|by rewrite saveFlashcards_quota]. }
  destruct ev; cbn [step].
  - unfold generate_click. destruct (generateDisabled st); [done|]. by destruct (negb _).
  - unfold generate_resolved. destruct (negb _); [done|].
    destruct (JS.truthy responseText); [|done]. destruct (0 <? _); [|done].
    cbn [env set_disabled set_env]. rewrite displayFlashcards_env. apply Hsave.
  - unfold generate_rejected. by destruct (negb _).
  - done.
  - unfold undoButton_click. destruct (previousState st); [|done].
    cbn [env set_error set_previous applySearchFilter set_container set_env].
    rewrite displayFlashcards_env. apply Hsave.
  - unfold undo_message_timeout. by case_decide.
  - unfold selectButton_click. rewrite displayFlashcards_env.
    by destruct (isMultiSelectMode _).
  - unfold deleteSelectedButton_click. case_bool_decide; [done|].
    destruct confirmed; [|done]. rewrite displayFlashcards_env. apply Hsave.
  - unfold card_click. destruct (container st !! pos); [|done].
    destruct (isMultiSelectMode st).
    + by destruct (toggleCardSelection_frame (data_index c) st) as (_ & _ & ->).
    + by destruct (flipCard_frame pos st) as (_ & _ & ->).
  - by destruct (card_keydown_frame pos key st) as (_ & _ & ->).
  - unfold editButton_click. destruct (container st !! pos) as [el|]; [|done].
    destruct (is_editing el); [|done].
    unfold saveAndEndEditing. destruct (container st !! pos) as [el'|]; [|done].
    destruct (negb _); [done|]. destruct (currentFlashcards st !! _); [|done].
    destruct (_ || _); [|done]. apply Hsave.
  - unfold field_input. destruct (container st !! pos) as [el|]; [|done].
    destruct (is_editing el); [|done]. by destruct field.
  - unfold field_keydown.
    destruct (card_keydown_frame pos key
                match key with
                | Enter => saveAndEndEditing pos st
                | Escape => cancelEditing pos st
                | _ => st
                end) as (_ & _ & ->).
    destruct key; try done.
    + unfold saveAndEndEditing. destruct (container st !! pos) as [el'|]; [|done].
      destruct (negb _); [done|]. destruct (currentFlashcards st !! _); [|done].
      destruct (_ || _); [|done]. apply Hsave.
    + by destruct (cancelEditing_frame pos st) as (_ & _ & ->).
  - unfold saveAndEndEditing. destruct (container st !! pos) as [el'|]; [|done].
    destruct (negb _); [done|]. destruct (currentFlashcards st !! _); [|done].
    destruct (_ || _); [|done]. apply Hsave.
  - unfold deleteButton_click. destruct (container st !! pos) as [el|]; [|done].
    destruct confirmed; [|done]. rewrite displayFlashcards_env. apply Hsave.
  - destruct (proj1 (drag_moves_frame st pos None)) as (_ & _ & H).
    cbn [step] in H. by rewrite H.
  - destruct (proj2 (drag_moves_frame st 0 after)) as (_ & _ & H).
    cbn [step] in H. by rewrite H.
  - unfold card_dragend. destruct (container st !! pos) as [el|]; [|done].
    destruct (draggable el); [|done]. unfold updateOrderAndSave.
    cbn [env set_env applySearchFilter set_container].
    rewrite displayFlashcards_env. apply Hsave.
  - by destruct (Hev exceeded).
Qed.

Lemma full_storage_keeps_items_witness :
  ls_items (env (step (DeleteClick 0 true)
                   (boot (Some four_cards) (mkEnv ∅ true [] [])))) = ∅.
Proof.
  destruct (full_storage_keeps_items (DeleteClick 0 true)
              (boot (Some four_cards) (mkEnv ∅ true [] [])) eq_refl
              ltac:(discriminate)) as [H _].
  exact H.
Defined.

End FullStorage.
